(** * RTNeural: dense and GRU layers (ranges / Eigen back ends)

    A shallow embedding of
      - [RTNeural/dense/dense_ranges.h] (classes [Dense], [DenseT]): module
        [DenseRanges];
      - the other revision of the same header (source file
        [unnamed/part_001]), in which the dynamic [Dense] folds the bias
        into the last column of its weights: module [DenseRanges2];
      - the Eigen implementation of the GRU (source file
        [unnamed/part_000], which includes [gru_eigen.h]; classes
        [GRULayer], [GRULayerT]): modules [GRULayer], [GRULayerT];
    followed by the properties of the specification that can be settled on
    them.

    Conventions.
      - The template parameter [T] is a type with the arithmetic the code
        uses ([Scalar]) and, where the code calls [memcpy]/[memset] on
        arrays of [T], an object representation ([ObjRep]): [sizeofT]
        bytes per value.  [memcpy] copies BYTES, as in C++.
      - [std::vector<T>], [T[n]] and Eigen vectors are [list T]; a matrix is
        the list of its rows.  Sizes and loop counters ([int]) are [nat]
        where the code only counts upwards from zero, [Z] where it
        subtracts ([delayWriteIdx]).
      - [int] values that the code computes from a delay ([delayWriteIdx])
        are [Z]; the range of [int] is a hypothesis where a statement
        depends on it.  Allocation ([resize]) is taken to succeed.
      - Reads and writes outside an array are undefined behaviour in C++.
        The list operations used here are total (an out-of-range write
        changes nothing, an out-of-range read yields [szero]); every
        theorem that depends on an access being in range states the shape
        it needs. *)

From Stdlib Require Import ZArith List Lia Reals Psatz QArith Qround.
From Stdlib Require Import PrimFloat FloatOps SpecFloat.
From coqutil Require Import Byte Word.LittleEndianList.
From stdpp Require Import base list.

Close Scope Q_scope.
Close Scope R_scope.
Close Scope Z_scope.
Open Scope nat_scope.

(* ===================================================================== *)
(** ** The scalar type [T] *)
(* ===================================================================== *)

(** Arithmetic of the template parameter [T]. *)
Class Scalar (T : Type) := {
  szero : T;                 (* (T)0, T{} *)
  sone : T;                  (* (T)1 *)
  sadd : T -> T -> T;
  ssub : T -> T -> T;
  smul : T -> T -> T;
}.

(** The element-wise nonlinearities the GRU takes from its maths
    provider. *)
Class Activations (T : Type) := {
  sigmoid : T -> T;
  tanh : T -> T;
}.

(** Object representation of [T]: what [memcpy] and [memset] see. *)
Class ObjRep (T : Type) := {
  sizeofT : nat;
  to_bytes : T -> list byte;
  of_bytes : list byte -> T;
}.

(** What every trivially copyable C++ type satisfies: a value occupies
    [sizeofT >= 1] bytes, and the bytes of an object are what was stored
    in it. *)
Class ObjRepLaws (T : Type) `{ObjRep T} : Prop := {
  sizeofT_pos : 0 < sizeofT;
  to_bytes_length : forall x : T, length (to_bytes x) = sizeofT;
  to_of_bytes : forall bs : list byte, length bs = sizeofT -> to_bytes (of_bytes bs) = bs;
}.

(** The laws of a commutative ring that the closed form of a dot product
    needs (exact arithmetic; floating point satisfies none of the
    associativity laws). *)
Class ScalarLaws (T : Type) `{Scalar T} : Prop := {
  sadd_comm : forall a b : T, sadd a b = sadd b a;
  sadd_assoc : forall a b c : T, sadd a (sadd b c) = sadd (sadd a b) c;
  sadd_0_r : forall a : T, sadd a szero = a;
  smul_1_r : forall a : T, smul a sone = a;
}.

(** *** [T = double]: IEEE 754 binary64, little-endian *)

Module Double.

(** The 64-bit pattern of a binary64 value (sign, 11-bit biased exponent,
    52-bit fraction).  All NaNs are given the quiet-NaN pattern. *)
Definition to_bits (f : float) : Z :=
  match Prim2SF f with
  | S754_zero s => if s then 2 ^ 63 else 0
  | S754_infinity s => (if s then 2 ^ 63 else 0) + 2047 * 2 ^ 52
  | S754_nan => 2047 * 2 ^ 52 + 2 ^ 51
  | S754_finite s m e =>
      (if s then 2 ^ 63 else 0) +
      (if Z.pos m <? 2 ^ 52 then Z.pos m
       else (e + 1075) * 2 ^ 52 + (Z.pos m - 2 ^ 52))
  end%Z.

(** The binary64 value of a 64-bit pattern. *)
Definition of_bits (z : Z) : float :=
  let s := Z.testbit z 63 in
  let e := Z.land (Z.shiftr z 52) 2047 in
  let m := Z.land z (2 ^ 52 - 1) in
  SF2Prim
    (if e =? 0 then
       match m with Z.pos p => S754_finite s p (-1074) | _ => S754_zero s end
     else if e =? 2047 then
       if m =? 0 then S754_infinity s else S754_nan
     else
       match m + 2 ^ 52 with
       | Z.pos p => S754_finite s p (e - 1075)
       | _ => S754_nan
       end)%Z.

#[export] Instance scalar : Scalar float := {
  szero := 0%float;
  sone := 1%float;
  sadd := PrimFloat.add;
  ssub := PrimFloat.sub;
  smul := PrimFloat.mul;
}.

#[export] Instance objrep : ObjRep float := {
  sizeofT := 8;
  to_bytes f := le_split 8 (to_bits f);
  of_bytes bs := of_bits (le_combine bs);
}.

End Double.

(** *** [T = R]: exact real arithmetic, with the usual nonlinearities *)

Module Real.

#[export] Instance scalar : Scalar R := {
  szero := 0%R;
  sone := 1%R;
  sadd := Rplus;
  ssub := Rminus;
  smul := Rmult;
}.

#[export] Instance activations : Activations R := {
  sigmoid x := (/ (1 + exp (- x)))%R;
  tanh := Rtrigo_def.tanh;
}.

End Real.

(** *** [T = Z]: exact integer arithmetic *)

Module Int.

#[export] Instance scalar : Scalar Z := {
  szero := 0%Z;
  sone := 1%Z;
  sadd := Z.add;
  ssub := Z.sub;
  smul := Z.mul;
}.

End Int.

(** *** [T = uint16_t]: two bytes, little-endian *)

Module UInt16.

Definition wrap (z : Z) : Z := (z mod 65536)%Z.

#[export] Instance scalar : Scalar Z := {
  szero := 0%Z;
  sone := 1%Z;
  sadd a b := wrap (a + b);
  ssub a b := wrap (a - b);
  smul a b := wrap (a * b);
}.

#[export] Instance objrep : ObjRep Z := {
  sizeofT := 2;
  to_bytes z := le_split 2 z;
  of_bytes bs := le_combine bs;
}.

End UInt16.

(* ===================================================================== *)
(** ** Arrays of [T] in memory *)
(* ===================================================================== *)

Section Memory.
Context {T : Type} `{ObjRep T}.

(** The bytes of an array. *)
Definition encode_all (l : list T) : list byte := flat_map to_bytes l.

(** The [k] values stored in [k * sizeofT] bytes. *)
Fixpoint decode_all (k : nat) (bs : list byte) : list T :=
  match k with
  | 0 => []
  | S k' => of_bytes (firstn sizeofT bs) :: decode_all k' (skipn sizeofT bs)
  end.

(** [memcpy(dst, src, n)]: the first [n] BYTES of [dst] are replaced by
    the first [n] bytes of [src]; [dst] keeps its element count.  (Both
    arrays must hold at least [n] bytes.) *)
Definition memcpy (dst src : list T) (n : nat) : list T :=
  decode_all (length dst)
    (firstn n (encode_all src) ++ skipn n (encode_all dst)).

(** [memset(dst, 0, n)]: the first [n] BYTES of [dst] become zero. *)
Definition memset0 (dst : list T) (n : nat) : list T :=
  decode_all (length dst)
    (firstn n (repeat Byte.x00 (length (encode_all dst)))
       ++ skipn n (encode_all dst)).

End Memory.

(** Writing a computed range through an output iterator: the results
    replace the front of the destination buffer. *)
Definition write_front {A : Type} (res dst : list A) : list A :=
  res ++ skipn (length res) dst.

(** [dst[i] = src[i]] for [i < n], in place. *)
Fixpoint copy_front {A : Type} (n : nat) (src dst : list A) : list A :=
  match n, src, dst with
  | S n', x :: src', _ :: dst' => x :: copy_front n' src' dst'
  | _, _, _ => dst
  end.

(* ===================================================================== *)
(** ** dense_ranges.h *)
(* ===================================================================== *)

Section AddMultiply.
Context {T : Type} `{Scalar T}.

(** [AddMultiply::operator()(Tuple&& t, Numeric&& e)]:
    [res = (el * ...) * (Numeric)1; return e + res;] *)
Definition AddMultiply (t : T * T) (e : T) : T :=
  let res := smul (smul (fst t) (snd t)) sone in
  sadd e res.

(** [ranges::fold_right(ranges::views::zip(w, x), init, AddMultiply{})]:
    the zip stops at the shorter range; the fold applies the operator
    from the last pair to the first. *)
Definition fold_row (w x : list T) (init : T) : T :=
  fold_right AddMultiply init (combine w x).

End AddMultiply.

Module DenseRanges.

(** *** [class Dense] (dynamic) *)
Module Dense.
Section Dense.
Context {T : Type} `{Scalar T} `{ObjRep T}.

Record t := mk {
  in_size : nat;
  out_size : nat;
  weights : list (list T);
  bias : list T;
  inVec : list T;
  outVec : list T;
}.

(** [Dense(int in_size, int out_size)] *)
Definition ctor (in_size out_size : nat) : t :=
  {| in_size := in_size;
     out_size := out_size;
     weights := repeat (repeat szero in_size) out_size;
     bias := repeat szero out_size;
     inVec := repeat szero in_size;
     outVec := repeat szero out_size |}.

(** The implicitly defined copy constructor: member-wise copy. *)
Definition copy_ctor (other : t) : t := other.

(** [Dense& operator=(const Dense& other) { return *this = Dense(other); }]
    The class declares a copy assignment and a destructor, so it has no
    move assignment: the assignment inside the body selects this very
    operator again, with the temporary as its argument.  [fuel] bounds
    the depth of the calls; [None] is a call that has not returned. *)
Fixpoint operator_assign (fuel : nat) (this other : t) : option t :=
  match fuel with
  | 0 => None
  | S fuel' => operator_assign fuel' this (copy_ctor other)
  end.

(** [forward(const T* input, T* output)] *)
Definition forward (d : t) (input output : list T) : list T :=
  let inputSpan := firstn (in_size d) input in
  write_front
    (map (fun els : list T * T => fold_row (fst els) inputSpan (snd els))
         (combine (weights d) (bias d)))
    output.

(** [setWeights(const std::vector<std::vector<T>>& newWeights)] *)
Definition setWeights (d : t) (newWeights : list (list T)) : t :=
  {| in_size := in_size d; out_size := out_size d;
     weights := newWeights;
     bias := bias d; inVec := inVec d; outVec := outVec d |}.

(** [setWeights(T** newWeights)]:
    [for i < out_size: memcpy(weights[i].data(), newWeights[i], in_size)] *)
Definition setWeights_ptr (d : t) (newWeights : list (list T)) : t :=
  {| in_size := in_size d; out_size := out_size d;
     weights :=
       imap (fun i w =>
               if i <? out_size d
               then memcpy w (nth i newWeights []) (in_size d)
               else w)
            (weights d);
     bias := bias d; inVec := inVec d; outVec := outVec d |}.

(** [setBias(const T* b)]: [memcpy(bias.data(), b, out_size)] *)
Definition setBias (d : t) (b : list T) : t :=
  {| in_size := in_size d; out_size := out_size d;
     weights := weights d;
     bias := memcpy (bias d) b (out_size d);
     inVec := inVec d; outVec := outVec d |}.

(** [getWeight(int i, int k)] *)
Definition getWeight (d : t) (i k : nat) : T :=
  nth k (nth i (weights d) []) szero.

(** [getBias(int i)] *)
Definition getBias (d : t) (i : nat) : T := nth i (bias d) szero.

End Dense.
Arguments t T : clear implicits.
End Dense.

(** *** [class DenseT] (static) *)
Module DenseT.
Section DenseT.
Context {T : Type} `{Scalar T} `{ObjRep T}.
(** The template parameters. *)
Variables in_sizet out_sizet : nat.

Definition in_size : nat := in_sizet.
Definition out_size : nat := out_sizet.

(** [weights] is [T[out_sizet][in_sizet]]: one block of
    [out_sizet * in_sizet] values, row after row. *)
Record t := mk {
  outs : list T;
  weights : list T;
  bias : list T;
}.

(** Row [i] of the two-dimensional array. *)
Definition row (w : list T) (i : nat) : list T :=
  firstn in_size (skipn (i * in_size) w).

Definition rows (w : list T) : list (list T) :=
  map (row w) (seq 0 out_size).

(** Storing a row back. *)
Definition set_row (w : list T) (i : nat) (r : list T) : list T :=
  firstn (i * in_size) w ++ r ++ skipn (i * in_size + in_size) w.

(** [DenseT()]: the members are not initialised before the body runs;
    [mem] is what the storage held.
    [for i < out_size: memset(weights[i], 0, in_size); memset(bias, 0, out_size);] *)
Definition ctor (mem : t) : t :=
  {| outs := outs mem;
     weights :=
       fold_left (fun w i => set_row w i (memset0 (row w i) in_size))
                 (seq 0 out_size) (weights mem);
     bias := memset0 (bias mem) out_size |}.

(** [forward(const in_vec_type& ins)]; the zip runs over the [out_size]
    rows of [weights] and the [out_size] elements of [bias], and the
    results go to the member [outs]. *)
Definition forward (d : t) (ins : list T) : t :=
  let inputSpan := firstn in_size ins in
  {| outs :=
       write_front
         (map (fun els : list T * T => fold_row (fst els) inputSpan (snd els))
              (combine (rows (weights d)) (firstn out_size (bias d))))
         (outs d);
     weights := weights d;
     bias := bias d |}.

(** [setWeights(...)], both overloads:
    [for i < out_size: memcpy(weights[i], newWeights[i](.data()), in_size)] *)
Definition setWeights (d : t) (newWeights : list (list T)) : t :=
  {| outs := outs d;
     weights :=
       fold_left
         (fun w i => set_row w i (memcpy (row w i) (nth i newWeights []) in_size))
         (seq 0 out_size) (weights d);
     bias := bias d |}.

(** [setBias(const T* b)]: [memcpy(bias, b, out_size)] *)
Definition setBias (d : t) (b : list T) : t :=
  {| outs := outs d;
     weights := weights d;
     bias := memcpy (bias d) b out_size |}.

End DenseT.
Arguments t T : clear implicits.
End DenseT.

End DenseRanges.

(* ===================================================================== *)
(** ** dense_ranges.h, the other revision: bias folded into the weights *)
(* ===================================================================== *)

(** In this revision ([unnamed/part_001]) the dynamic [Dense] keeps each
    bias as the last element of its weight row and multiplies it with a
    constant [1] appended to a copy of the input.  Its [DenseT] is the one
    above (the functor is a member instead of a temporary). *)
Module DenseRanges2.
Module Dense.
Section Dense.
Context {T : Type} `{Scalar T} `{ObjRep T}.

Record t := mk {
  in_size : nat;
  out_size : nat;
  weights : list (list T);
  inVec : list T;
}.

(** [Dense(int in_size, int out_size)] *)
Definition ctor (in_size out_size : nat) : t :=
  {| in_size := in_size;
     out_size := out_size;
     (* w.resize(in_size + 1); ranges::fill(w, (T)0); *)
     weights := repeat (repeat szero (in_size + 1)) out_size;
     (* inVec.resize(in_size + 1); inVec[in_size] = 1; *)
     inVec := <[in_size := sone]> (repeat szero (in_size + 1)) |}.

(** [forward(const T* input, T* output)]:
    [memcpy(inVec.data(), input, in_size)], then one right fold per row,
    from the initial value [0].  The layer keeps the changed [inVec]. *)
Definition forward (d : t) (input output : list T) : t * list T :=
  let inVec' := memcpy (inVec d) input (in_size d) in
  ({| in_size := in_size d; out_size := out_size d;
      weights := weights d; inVec := inVec' |},
   write_front (map (fun w => fold_row w inVec' szero) (weights d)) output).

(** [setWeights(const std::vector<std::vector<T>>& newWeights)]:
    [for i < out_size: std::copy(newWeights.begin(), newWeights.end(), weights.begin())].
    Each pass assigns whole rows: row [j] of [weights] becomes a copy of
    [newWeights[j]], with the length of [newWeights[j]]. *)
Definition setWeights (d : t) (newWeights : list (list T)) : t :=
  {| in_size := in_size d; out_size := out_size d;
     weights :=
       Nat.iter (out_size d)
         (copy_front (length newWeights) newWeights) (weights d);
     inVec := inVec d |}.

(** [setWeights(T** newWeights)]:
    [for i < out_size: memcpy(weights[i].data(), newWeights[i], in_size)] *)
Definition setWeights_ptr (d : t) (newWeights : list (list T)) : t :=
  {| in_size := in_size d; out_size := out_size d;
     weights :=
       imap (fun i w =>
               if i <? out_size d
               then memcpy w (nth i newWeights []) (in_size d)
               else w)
            (weights d);
     inVec := inVec d |}.

(** [setBias(const T* b)]: [for i < out_size: weights[i][in_size] = b[i]] *)
Definition setBias (d : t) (b : list T) : t :=
  {| in_size := in_size d; out_size := out_size d;
     weights :=
       imap (fun i w =>
               if i <? out_size d
               then <[in_size d := nth i b szero]> w
               else w)
            (weights d);
     inVec := inVec d |}.

(** [getWeight(int i, int k)] *)
Definition getWeight (d : t) (i k : nat) : T :=
  nth k (nth i (weights d) []) szero.

(** [getBias(int i)]: [weights[i][in_size]] *)
Definition getBias (d : t) (i : nat) : T :=
  nth (in_size d) (nth i (weights d) []) szero.

(** The layer after a sequence of [forward] calls. *)
Definition run (d : t) (inputs : list (list T)) (output : list T) : t :=
  fold_left (fun d' x => fst (forward d' x output)) inputs d.

End Dense.
Arguments t T : clear implicits.
End Dense.
End DenseRanges2.

(* ===================================================================== *)
(** ** Eigen vectors and matrices *)
(* ===================================================================== *)

Section Eigen.
Context {T : Type} `{Scalar T}.

(** [Matrix<T, n, 1>::Zero()], [Matrix<T, r, c>::Zero()], [Ones()] *)
Definition Zero (n : nat) : list T := repeat szero n.
Definition ZeroM (r c : nat) : list (list T) := repeat (Zero c) r.
Definition Ones (n : nat) : list T := repeat sone n.

(** [m(k, i) = v] *)
Definition mat_set (m : list (list T)) (k i : nat) (v : T) : list (list T) :=
  alter (fun r => <[i := v]> r) k m.

(** [m(k, i)] *)
Definition mat_get (m : list (list T)) (k i : nat) : T :=
  nth i (nth k m []) szero.

(** [v.segment(start, n)] *)
Definition segment (v : list T) (start n : nat) : list T :=
  firstn n (skipn start v).

(** Coefficient-wise sum, difference and product. *)
Definition vadd (a b : list T) : list T := zip_with sadd a b.
Definition vsub (a b : list T) : list T := zip_with ssub a b.
Definition cwiseProduct (a b : list T) : list T := zip_with smul a b.
(** [c * v] *)
Definition scale (c : T) (v : list T) : list T := map (smul c) v.

(** Inner product of a row with a vector, and [m * v]. *)
Definition dot (r v : list T) : T :=
  fold_right (fun p acc => sadd (smul (fst p) (snd p)) acc) szero (combine r v).
Definition mat_vec (m : list (list T)) (v : list T) : list T :=
  map (fun r => dot r v) m.

End Eigen.

(** [enum class SampleRateCorrectionMode] *)
Module SampleRateCorrectionMode.
Inductive t := None | NoInterp | LinInterp.
Definition eqb (a b : t) : bool :=
  match a, b with
  | None, None | NoInterp, NoInterp | LinInterp, LinInterp => true
  | _, _ => false
  end.
End SampleRateCorrectionMode.

(** The range of [int] (32 bits). *)
Definition INT_MIN : Z := (-2147483648)%Z.
Definition INT_MAX : Z := 2147483647%Z.
Definition int_range (z : Z) : Prop := (INT_MIN <= z <= INT_MAX)%Z.

(** [std::floor], [std::ceil] and the conversion [(int)] on [T].
    C++ defines [(int)x] only where the truncated value lies in
    [int_range]; [to_int x] is the truncated value, which is the value of
    the conversion there.  The members and locals of type [int]
    ([delayWriteIdx], [delayWriteIdx + 1]) are kept in [Z].
    [prepare(int)] takes an [int], so its argument lies in [int_range]
    in every call; the statements on the size of the buffer and on the
    write index after [prepare(T)] carry the bound on the delay under
    which every conversion is defined and no addition overflows. *)
Class Rounding (T : Type) := {
  sfloor : T -> T;
  sceil : T -> T;
  to_int : T -> Z;
}.

(** *** [T = Q]: exact rational arithmetic with rounding *)
Module Rat.

#[export] Instance scalar : Scalar Q := {
  szero := 0%Q;
  sone := 1%Q;
  sadd := Qplus;
  ssub := Qminus;
  smul := Qmult;
}.

#[export] Instance rounding : Rounding Q := {
  sfloor q := inject_Z (Qfloor q);
  sceil q := inject_Z (Qceiling q);
  to_int q := Z.quot (Qnum q) (Z.pos (Qden q));
}.

End Rat.

(* ===================================================================== *)
(** ** The Eigen GRU ([unnamed/part_000]) *)
(* ===================================================================== *)

(** *** [class GRULayer] (dynamic) *)
Module GRULayer.
Section GRULayer.
Context {T : Type} `{Scalar T}.

Record t := mk {
  in_size : nat;
  out_size : nat;
  wCombinedWeights : list (list T);
  uCombinedWeights : list (list T);
  extendedInVec : list T;
  extendedHt1 : list T;
  alphaVec : list T;
  betaVec : list T;
  gammaVec : list T;
  cVec : list T;
}.

(** [GRULayer(int in_size, int out_size)] *)
Definition ctor (in_size out_size : nat) : t :=
  {| in_size := in_size;
     out_size := out_size;
     wCombinedWeights := ZeroM (3 * out_size) (in_size + 1);
     uCombinedWeights := ZeroM (3 * out_size) (out_size + 1);
     extendedInVec := <[in_size := sone]> (Zero (in_size + 1));
     extendedHt1 := <[out_size := sone]> (Zero (out_size + 1));
     alphaVec := Zero (3 * out_size);
     betaVec := Zero (3 * out_size);
     gammaVec := Zero (2 * out_size);
     cVec := Zero out_size |}.

(** [GRULayer(std::initializer_list<int> sizes)] *)
Definition ctor_sizes (sizes : list nat) : t :=
  ctor (nth 0 sizes 0) (nth 1 sizes 0).

(** [GRULayer(const GRULayer& other) : GRULayer(other.in_size, other.out_size) {}] *)
Definition copy_ctor (other : t) : t :=
  ctor (in_size other) (out_size other).

(** [operator=(const GRULayer& other) { return *this = GRULayer<T>(other); }]
    The class declares its copy constructor and copy assignment itself,
    so no move assignment is generated for it (the same holds for
    [Dense] above, whose whole declaration is in dense_ranges.h): the
    assignment in the body selects this operator again, with the
    temporary as its argument.  [fuel] bounds the depth of the calls;
    [None] is a call that has not returned. *)
Fixpoint operator_assign (fuel : nat) (this other : t) : option t :=
  match fuel with
  | 0 => None
  | S fuel' => operator_assign fuel' this (copy_ctor other)
  end.

Definition with_W (l : t) (w : list (list T)) : t :=
  {| in_size := in_size l; out_size := out_size l;
     wCombinedWeights := w; uCombinedWeights := uCombinedWeights l;
     extendedInVec := extendedInVec l; extendedHt1 := extendedHt1 l;
     alphaVec := alphaVec l; betaVec := betaVec l;
     gammaVec := gammaVec l; cVec := cVec l |}.

Definition with_U (l : t) (u : list (list T)) : t :=
  {| in_size := in_size l; out_size := out_size l;
     wCombinedWeights := wCombinedWeights l; uCombinedWeights := u;
     extendedInVec := extendedInVec l; extendedHt1 := extendedHt1 l;
     alphaVec := alphaVec l; betaVec := betaVec l;
     gammaVec := gammaVec l; cVec := cVec l |}.

(** [setWVals], both overloads:
    [for i < in_size: for k < out_size * 3: wCombinedWeights(k, i) = wVals[i][k]] *)
Definition setWVals (l : t) (wVals : list (list T)) : t :=
  with_W l
    (fold_left
       (fun w i =>
          fold_left (fun w k => mat_set w k i (mat_get wVals i k))
                    (seq 0 (out_size l * 3)) w)
       (seq 0 (in_size l)) (wCombinedWeights l)).

(** [setUVals], both overloads:
    [for i < out_size: for k < out_size * 3: uCombinedWeights(k, i) = uVals[i][k]] *)
Definition setUVals (l : t) (uVals : list (list T)) : t :=
  with_U l
    (fold_left
       (fun u i =>
          fold_left (fun u k => mat_set u k i (mat_get uVals i k))
                    (seq 0 (out_size l * 3)) u)
       (seq 0 (out_size l)) (uCombinedWeights l)).

(** [setBVals], both overloads:
    [for k < out_size * 3:
       wCombinedWeights(k, in_size) = bVals[0][k];
       uCombinedWeights(k, out_size) = bVals[1][k];] *)
Definition setBVals (l : t) (bVals : list (list T)) : t :=
  fold_left
    (fun l k =>
       with_U
         (with_W l (mat_set (wCombinedWeights l) k (in_size l) (mat_get bVals 0 k)))
         (mat_set (uCombinedWeights l) k (out_size l) (mat_get bVals 1 k)))
    (seq 0 (out_size l * 3)) l.

(** [getWVal(i, k)], [getUVal(i, k)] and [getBVal(i, k)] are not
    modelled.  The source writes their reads with two subscripts,
    [wCombinedWeights[k][i]], [uCombinedWeights[k][i]],
    [wCombinedWeights[k][in_size]] and [uCombinedWeights[k][out_size]];
    Eigen declares [operator[]] for vectors only, so on these matrices
    the three bodies are ill-formed as soon as they are instantiated, and
    no program can call them.  What the setters store is stated on the
    matrices themselves, with the coefficient access [(k, i)] that the
    setters use. *)

End GRULayer.
Arguments t T : clear implicits.
End GRULayer.

(** *** [class GRULayerT] (static) *)
Module GRULayerT.
Section GRULayerT.
Context {T : Type} `{Scalar T}.
(** The template parameters. *)
Variables in_sizet out_sizet : nat.
Variable sampleRateCorr : SampleRateCorrectionMode.t.

Definition in_size : nat := in_sizet.
Definition out_size : nat := out_sizet.

Record t := mk {
  outs : list T;                       (* a view of [outs_internal] *)
  outs_delayed : list (list T);
  delayWriteIdx : Z;
  delayMult : T;
  delayPlus1Mult : T;
  wCombinedWeights : list (list T);
  uCombinedWeights : list (list T);
  alphaVec : list T;
  betaVec : list T;
  gammaVec : list T;
  cVec : list T;
  extendedInVec : list T;
  extendedHt1 : list T;
}.

(** [reset()] *)
Definition reset (l : t) : t :=
  {| outs := Zero out_sizet;
     outs_delayed :=
       if SampleRateCorrectionMode.eqb sampleRateCorr SampleRateCorrectionMode.None
       then outs_delayed l
       else map (fun _ => Zero out_sizet) (outs_delayed l);
     delayWriteIdx := delayWriteIdx l;
     delayMult := delayMult l;
     delayPlus1Mult := delayPlus1Mult l;
     wCombinedWeights := wCombinedWeights l;
     uCombinedWeights := uCombinedWeights l;
     alphaVec := alphaVec l; betaVec := betaVec l;
     gammaVec := gammaVec l; cVec := cVec l;
     extendedInVec := extendedInVec l;
     extendedHt1 := extendedHt1 l |}.

(** [GRULayerT()].  The constructor assigns neither the delay index
    nor the two multipliers; [idx0], [mult0] and [plus1Mult0] are what
    their declarations in the class give them.  [outs_delayed] is a
    default-constructed [std::vector]. *)
Definition ctor (idx0 : Z) (mult0 plus1Mult0 : T) : t :=
  reset
    {| outs := Zero out_sizet;
       outs_delayed := [];
       delayWriteIdx := idx0;
       delayMult := mult0;
       delayPlus1Mult := plus1Mult0;
       wCombinedWeights := ZeroM (3 * out_sizet) (in_sizet + 1);
       uCombinedWeights := ZeroM (3 * out_sizet) (out_sizet + 1);
       alphaVec := Zero (3 * out_sizet);
       betaVec := Zero (3 * out_sizet);
       gammaVec := Zero (2 * out_sizet);
       cVec := Zero out_sizet;
       extendedInVec := <[in_sizet := sone]> (Zero (in_sizet + 1));
       extendedHt1 := <[out_sizet := sone]> (Zero (out_sizet + 1)) |}.

(** [v.resize(n, {})]: the first [n] elements are kept, new ones are
    value-constructed.  Every caller runs [reset()] next, which
    overwrites the new slots before anything reads them. *)
Definition resize (n : nat) (v : list (list T)) : list (list T) :=
  firstn n v ++ repeat (Zero out_sizet) (n - length v).

Definition with_delay (l : t) (idx : Z) (mult plus1 : T)
    (buf : list (list T)) : t :=
  {| outs := outs l;
     outs_delayed := buf;
     delayWriteIdx := idx;
     delayMult := mult;
     delayPlus1Mult := plus1;
     wCombinedWeights := wCombinedWeights l;
     uCombinedWeights := uCombinedWeights l;
     alphaVec := alphaVec l; betaVec := betaVec l;
     gammaVec := gammaVec l; cVec := cVec l;
     extendedInVec := extendedInVec l;
     extendedHt1 := extendedHt1 l |}.

(** [prepare(int delaySamples)], declared for [NoInterp] only:
    [delayWriteIdx = delaySamples - 1;
     outs_delayed.resize(delayWriteIdx + 1, {}); reset();] *)
Definition prepare_NoInterp (l : t) (delaySamples : Z) : t :=
  let idx := (delaySamples - 1)%Z in
  reset
    (with_delay l idx (delayMult l) (delayPlus1Mult l)
       (resize (Z.to_nat (idx + 1)) (outs_delayed l))).

(** [prepare(T delaySamples)], declared for [LinInterp] only:
    [delayOffFactor = delaySamples - std::floor(delaySamples);
     delayMult = (T)1 - delayOffFactor; delayPlus1Mult = delayOffFactor;
     delayWriteIdx = (int)std::ceil(delaySamples) - (int)std::ceil(delayOffFactor);
     outs_delayed.resize(delayWriteIdx + 1, {}); reset();] *)
Definition prepare_LinInterp `{Rounding T} (l : t) (delaySamples : T) : t :=
  let delayOffFactor := ssub delaySamples (sfloor delaySamples) in
  let idx := (to_int (sceil delaySamples) - to_int (sceil delayOffFactor))%Z in
  reset
    (with_delay l idx (ssub sone delayOffFactor) delayOffFactor
       (resize (Z.to_nat (idx + 1)) (outs_delayed l))).

Definition with_W (l : t) (w : list (list T)) : t :=
  {| outs := outs l; outs_delayed := outs_delayed l;
     delayWriteIdx := delayWriteIdx l;
     delayMult := delayMult l; delayPlus1Mult := delayPlus1Mult l;
     wCombinedWeights := w; uCombinedWeights := uCombinedWeights l;
     alphaVec := alphaVec l; betaVec := betaVec l;
     gammaVec := gammaVec l; cVec := cVec l;
     extendedInVec := extendedInVec l; extendedHt1 := extendedHt1 l |}.

Definition with_U (l : t) (u : list (list T)) : t :=
  {| outs := outs l; outs_delayed := outs_delayed l;
     delayWriteIdx := delayWriteIdx l;
     delayMult := delayMult l; delayPlus1Mult := delayPlus1Mult l;
     wCombinedWeights := wCombinedWeights l; uCombinedWeights := u;
     alphaVec := alphaVec l; betaVec := betaVec l;
     gammaVec := gammaVec l; cVec := cVec l;
     extendedInVec := extendedInVec l; extendedHt1 := extendedHt1 l |}.

(** [setWVals]:
    [for i < in_size: for k < out_size * 3: wCombinedWeights(k, i) = wVals[i][k]] *)
Definition setWVals (l : t) (wVals : list (list T)) : t :=
  with_W l
    (fold_left
       (fun w i =>
          fold_left (fun w k => mat_set w k i (mat_get wVals i k))
                    (seq 0 (out_size * 3)) w)
       (seq 0 in_size) (wCombinedWeights l)).

(** [setUVals]:
    [for i < out_size: for k < out_size * 3: uCombinedWeights(k, i) = uVals[i][k]] *)
Definition setUVals (l : t) (uVals : list (list T)) : t :=
  with_U l
    (fold_left
       (fun u i =>
          fold_left (fun u k => mat_set u k i (mat_get uVals i k))
                    (seq 0 (out_size * 3)) u)
       (seq 0 out_size) (uCombinedWeights l)).

(** [setBVals]:
    [for k < out_size:
       wCombinedWeights(k, in_sizet) = bVals[0][k];
       uCombinedWeights(k, out_sizet) = bVals[1][k];] *)
Definition setBVals (l : t) (bVals : list (list T)) : t :=
  fold_left
    (fun l k =>
       with_U
         (with_W l (mat_set (wCombinedWeights l) k in_sizet (mat_get bVals 0 k)))
         (mat_set (uCombinedWeights l) k out_sizet (mat_get bVals 1 k)))
    (seq 0 out_size) l.

(** **** Forward propagation *)

Context `{Activations T}.

(** Modelled from the spec: [GRULayerT::forward], which is defined in
    gru_eigen.h and is not among the sources.  Section 4.3 of the
    specification, steps 1 to 8, on the members that the constructor
    above sets up:
      1. the extended input and the extended hidden vector are formed
         from the input and from the persisted hidden vector [outs];
         only their first [in_sizet] (resp. [out_sizet]) elements are
         written, the appended constant is left as it is;
      2. [alphaVec = W * extendedInVec], [betaVec = U * extendedHt1];
      3. both are split into the blocks reset, update, candidate;
      4. [r = sigmoid(r_x + r_h)];   5. [z = sigmoid(z_x + z_h)]
         (kept together in [gammaVec], of length [2 * out_sizet]);
      6. [cVec = tanh(n_x + r .* n_h)];
      7. [h = (1 - z) .* cVec + z .* h_prev];
      8. [h] is the new persisted state and the output. *)
Definition kernel (l : t) (ins : list T) : t :=
  let h_prev := outs l in
  let x_hat := copy_front in_sizet ins (extendedInVec l) in
  let h_hat := copy_front out_sizet h_prev (extendedHt1 l) in
  let alpha := mat_vec (wCombinedWeights l) x_hat in
  let beta := mat_vec (uCombinedWeights l) h_hat in
  let gamma :=
    map sigmoid (vadd (segment alpha 0 (2 * out_sizet))
                      (segment beta 0 (2 * out_sizet))) in
  let r := segment gamma 0 out_sizet in
  let z := segment gamma out_sizet out_sizet in
  let c :=
    map tanh (vadd (segment alpha (2 * out_sizet) out_sizet)
                   (cwiseProduct r (segment beta (2 * out_sizet) out_sizet))) in
  let h := vadd (cwiseProduct (vsub (Ones out_sizet) z) c)
                (cwiseProduct z h_prev) in
  {| outs := h;
     outs_delayed := outs_delayed l;
     delayWriteIdx := delayWriteIdx l;
     delayMult := delayMult l; delayPlus1Mult := delayPlus1Mult l;
     wCombinedWeights := wCombinedWeights l;
     uCombinedWeights := uCombinedWeights l;
     alphaVec := alpha; betaVec := beta; gammaVec := gamma; cVec := c;
     extendedInVec := x_hat; extendedHt1 := h_hat |}.

(** Modelled from the spec: the delay stage of [GRULayerT::forward]
    (section 4.4 and the two delay properties of section 8; gru_eigen.h
    is not among the sources).  The delay buffer holds the kernel
    outputs of the previous steps, the newest first; [hist] is the fresh
    kernel output written in front of them, so that [hist[j]] is the
    kernel output computed [j] steps earlier.
    - Without correction the step returns the fresh output.
    - Integer mode: the fresh output is written into the buffer and the
      oldest entry is returned; with [N] slots this is the kernel output
      computed [N] steps earlier, and an empty buffer passes the fresh
      output through.
    - Fractional mode: the step returns
      [delayMult * hist[write_idx] + delayPlus1Mult * hist[write_idx + 1]],
      the two entries that bracket the fractional offset.
    In both correcting modes the buffer keeps its number of slots and
    drops its oldest entry.  The hidden state [outs] stays the fresh
    output of the kernel (section 4.3, step 8).  The result is the layer
    after the step and the vector that the step returns. *)
Definition delay_stage (l : t) : t * list T :=
  let hist := outs l :: outs_delayed l in
  let l' :=
    with_delay l (delayWriteIdx l) (delayMult l) (delayPlus1Mult l)
      (firstn (length (outs_delayed l)) hist) in
  match sampleRateCorr with
  | SampleRateCorrectionMode.None => (l, outs l)
  | SampleRateCorrectionMode.NoInterp => (l', List.last hist (outs l))
  | SampleRateCorrectionMode.LinInterp =>
      let wi := Z.to_nat (delayWriteIdx l) in
      (l', vadd (scale (delayMult l) (nth wi hist (Zero out_sizet)))
                (scale (delayPlus1Mult l) (nth (wi + 1) hist (Zero out_sizet))))
  end.

(** Modelled from the spec: [GRULayerT::forward] as a whole (sections
    4.3 and 4.4; gru_eigen.h is not among the sources): the kernel, then
    the delay stage of the layer's mode.  [forward] is the layer after
    the step; its hidden state is [outs]. *)
Definition forward (l : t) (ins : list T) : t :=
  fst (delay_stage (kernel l ins)).

(** The outputs of a run: one step per input frame, in order, each
    giving the vector that its delay stage returns. *)
Fixpoint outputs (l : t) (inputs : list (list T)) : list (list T) :=
  match inputs with
  | [] => []
  | x :: rest =>
      let s := delay_stage (kernel l x) in snd s :: outputs (fst s) rest
  end.

End GRULayerT.
Arguments t T : clear implicits.
End GRULayerT.

(* ===================================================================== *)
(** ** Predicates of the statements, and the layers of the examples *)
(* ===================================================================== *)

(** The instances for [double], [R] and [Q] are used by name of the type;
    the two instances on [Z] are always given explicitly. *)
Import Double Real Rat.

Section Predicates.
Context {T : Type} `{Scalar T}.

(** [m] has [r] rows of [c] columns. *)
Definition mat_shape (r c : nat) (m : list (list T)) : Prop :=
  length m = r /\ Forall (fun row => length row = c) m.

(** A loop [for k < n: m(k, c) = f(k)] fills column [c] of the first [n]
    rows and nothing else. *)
Definition fill_col (c : nat) (f : nat -> T) (n : nat) (m : list (list T)) :=
  fold_left (fun w k => mat_set w k c (f k)) (seq 0 n) m.

(** The appended constant of both extended vectors is [1]. *)
Definition GRULayer_ext_ok (l : GRULayer.t T) : Prop :=
  GRULayer.extendedInVec l !! GRULayer.in_size l = Some sone /\
  GRULayer.extendedHt1 l !! GRULayer.out_size l = Some sone.

Definition GRULayerT_ext_ok (in_sizet out_sizet : nat) (l : GRULayerT.t T) : Prop :=
  GRULayerT.extendedInVec l !! in_sizet = Some sone /\
  GRULayerT.extendedHt1 l !! out_sizet = Some sone.

(** What holds of every static layer from its construction on: the
    extended vectors have their lengths and their constant, and a layer
    without sample-rate correction has no delay buffer ([prepare] is
    declared for the two correcting modes only). *)
Definition GRULayerT_wf (in_sizet out_sizet : nat)
    (sampleRateCorr : SampleRateCorrectionMode.t) (l : GRULayerT.t T) : Prop :=
  GRULayerT_ext_ok in_sizet out_sizet l /\
  length (GRULayerT.extendedInVec l) = in_sizet + 1 /\
  length (GRULayerT.extendedHt1 l) = out_sizet + 1 /\
  (sampleRateCorr = SampleRateCorrectionMode.None -> GRULayerT.outs_delayed l = []).

(** Two layers with the same weights and the same delay set-up. *)
Definition GRULayerT_same_config (l1 l2 : GRULayerT.t T) : Prop :=
  GRULayerT.wCombinedWeights l1 = GRULayerT.wCombinedWeights l2 /\
  GRULayerT.uCombinedWeights l1 = GRULayerT.uCombinedWeights l2 /\
  GRULayerT.delayWriteIdx l1 = GRULayerT.delayWriteIdx l2 /\
  GRULayerT.delayMult l1 = GRULayerT.delayMult l2 /\
  GRULayerT.delayPlus1Mult l1 = GRULayerT.delayPlus1Mult l2 /\
  length (GRULayerT.outs_delayed l1) = length (GRULayerT.outs_delayed l2).

End Predicates.

Module DenseDouble.

(** The layer of the specification's example, configured through the
    setters of dense_ranges.h. *)
Definition example : DenseRanges.Dense.t float :=
  DenseRanges.Dense.setBias
    (DenseRanges.Dense.setWeights (DenseRanges.Dense.ctor 2 1) [[1; 2]]%float)
    [0.5%float].

(** The same parameters in the layout of the other revision: the bias
    is the last element of the row. *)
Definition example2 : DenseRanges2.Dense.t float :=
  DenseRanges2.Dense.mk 2 1 [[1; 2; 0.5]]%float
    (DenseRanges2.Dense.inVec (DenseRanges2.Dense.ctor 2 1)).

(** The static layer [DenseT<double, 2, 1>] of dense_ranges.h, configured
    through its setters in the same way, in storage that held zeros. *)
Definition exampleT : DenseRanges.DenseT.t float :=
  DenseRanges.DenseT.setBias 1
    (DenseRanges.DenseT.setWeights 2 1
       (DenseRanges.DenseT.ctor 2 1
          (DenseRanges.DenseT.mk [0] [0; 0] [0])%float)
       [[1; 2]]%float)
    [0.5%float].
End DenseDouble.

Module DenseExamples.

(** A [Dense<uint16_t>(2, 1)] of the other revision. *)
Definition fresh2 : DenseRanges2.Dense.t Z :=
  @DenseRanges2.Dense.ctor Z UInt16.scalar 2 1.

(** Two [Dense<double>] layers of dense_ranges.h with the same weights
    and bias; the members [inVec] and [outVec] differ. *)
Definition a : DenseRanges.Dense.t float :=
  DenseRanges.Dense.mk 2 1 [[1; 2]]%float [0.5]%float [0; 0]%float [0]%float.
Definition b : DenseRanges.Dense.t float :=
  DenseRanges.Dense.mk 2 1 [[1; 2]]%float [0.5]%float [7; 8]%float [9]%float.

(** A [Dense<int>(2, 1)] of dense_ranges.h on exact integers, holding the
    weights [[1, 2]] and the bias [5]. *)
Definition c : DenseRanges.Dense.t Z :=
  DenseRanges.Dense.mk 2 1 [[1; 2]]%Z [5]%Z [] [].

End DenseExamples.

Module GRUExamples.

(** A freshly constructed [GRULayerT<double, 1, 1, None>]. *)
Definition fresh : GRULayerT.t float :=
  GRULayerT.ctor 1 1 SampleRateCorrectionMode.None 0%Z 1%float 0%float.

(** A freshly constructed [GRULayer<double>(1, 1)]. *)
Definition fresh_dynamic : GRULayer.t float := GRULayer.ctor 1 1.

(** The two bias sources [bVals[0]] and [bVals[1]]. *)
Definition bVals : list (list float) := [[1; 2; 3]; [4; 5; 6]]%float.

(** A [GRULayerT<Q, 1, 1, mode>] before [prepare]. *)
Definition fresh_rat (mode : SampleRateCorrectionMode.t) : GRULayerT.t Q :=
  GRULayerT.ctor 1 1 mode 0%Z 1%Q 0%Q.

(** A [GRULayerT<double, 1, 1, NoInterp>] in the middle of a stream: a
    non-zero state and two non-zero delayed outputs. *)
Definition streaming : GRULayerT.t float :=
  GRULayerT.mk [0.25]%float [[0.5]; [0.75]]%float 1%Z 1%float 0%float
    [[0; 0]; [0; 0]; [1; 0]]%float [[0; 0]; [0; 0]; [0; 0]]%float
    [0; 0; 1]%float [0; 0; 0]%float [0.5; 0.5]%float [0.75]%float
    [1; 1]%float [0.25; 1]%float.

End GRUExamples.

Module GRUExamplesR.

(** The layer of the specification's single-step example, on exact
    reals: [GRULayerT<R, 1, 1, None>], every weight and bias zero except
    the input weight of the candidate row, set through the setters. *)
Definition unit_candidate : GRULayerT.t R :=
  GRULayerT.setBVals 1 1
    (GRULayerT.setUVals 1
       (GRULayerT.setWVals 1 1
          (GRULayerT.ctor 1 1 SampleRateCorrectionMode.None 0%Z 1%R 0%R)
          [[0; 0; 1]]%R)
       [[0; 0; 0]]%R)
    [[0; 0; 0]; [0; 0; 0]]%R.

(** The same layer in the middle of a stream. *)
Definition unit_candidate_used : GRULayerT.t R :=
  GRULayerT.forward 1 1 SampleRateCorrectionMode.None unit_candidate [1%R].

End GRUExamplesR.

(* ===================================================================== *)
(** ** Further predicates and scalar types *)
(* ===================================================================== *)

(** A value read back from its own bytes is the value: what holds of
    every C++ object of a trivially copyable type. *)
Class ObjRepValueLaws (T : Type) `{ObjRep T} : Prop := {
  of_to_bytes : forall x : T, of_bytes (to_bytes x) = x;
}.

(** *** [T = uint8_t]: one byte *)

Module UInt8.

#[export] Instance scalar : Scalar byte := {
  szero := Byte.x00;
  sone := Byte.x01;
  sadd a b := byte.of_Z (byte.unsigned a + byte.unsigned b);
  ssub a b := byte.of_Z (byte.unsigned a - byte.unsigned b);
  smul a b := byte.of_Z (byte.unsigned a * byte.unsigned b);
}.

#[export] Instance objrep : ObjRep byte := {
  sizeofT := 1;
  to_bytes b := [b];
  of_bytes bs := hd Byte.x00 bs;
}.

End UInt8.

(** *** [T = uint16_t] as its two bytes, little-endian *)

Module UInt16le.

Definition to_Z (x : byte * byte) : Z :=
  (byte.unsigned (fst x) + 256 * byte.unsigned (snd x))%Z.

Definition of_Z (z : Z) : byte * byte :=
  (byte.of_Z z, byte.of_Z (z / 256)).

#[export] Instance scalar : Scalar (byte * byte) := {
  szero := (Byte.x00, Byte.x00);
  sone := (Byte.x01, Byte.x00);
  sadd a b := of_Z (to_Z a + to_Z b);
  ssub a b := of_Z (to_Z a - to_Z b);
  smul a b := of_Z (to_Z a * to_Z b);
}.

#[export] Instance objrep : ObjRep (byte * byte) := {
  sizeofT := 2;
  to_bytes x := [fst x; snd x];
  of_bytes bs := (nth 0 bs Byte.x00, nth 1 bs Byte.x00);
}.

End UInt16le.

Section MorePredicates.
Context {T : Type} `{Scalar T}.

(** The two nested loops of [setWVals] and [setUVals]:
    [for i < cols: for k < n: m(k, i) = f(i, k)]. *)
Definition fill_cols (f : nat -> nat -> T) (n cols : nat) (m : list (list T)) :=
  fold_left (fun w i => fill_col i (f i) n w) (seq 0 cols) m.

(** The combined matrices of a dynamic GRU layer have their shapes. *)
Definition GRULayer_shape (l : GRULayer.t T) : Prop :=
  mat_shape (3 * GRULayer.out_size l) (GRULayer.in_size l + 1)
    (GRULayer.wCombinedWeights l) /\
  mat_shape (3 * GRULayer.out_size l) (GRULayer.out_size l + 1)
    (GRULayer.uCombinedWeights l).

(** The combined matrices of a static GRU layer have their shapes. *)
Definition GRULayerT_shape (in_sizet out_sizet : nat) (l : GRULayerT.t T) : Prop :=
  mat_shape (3 * out_sizet) (in_sizet + 1) (GRULayerT.wCombinedWeights l) /\
  mat_shape (3 * out_sizet) (out_sizet + 1) (GRULayerT.uCombinedWeights l).

End MorePredicates.

(** Layers of the further examples. *)
Module MoreExamples.

(** Sources for [setWVals] ([in_size x 3 out_size]) and [setUVals]
    ([out_size x 3 out_size]) of a layer with [in_size = 2],
    [out_size = 1]. *)
Definition wVals : list (list float) := [[1; 2; 3]; [4; 5; 6]]%float.
Definition uVals : list (list float) := [[7; 8; 9]]%float.
Definition bVals : list (list float) := [[10; 11; 12]; [13; 14; 15]]%float.

(** [GRULayer<double>(2, 1)] and [GRULayerT<double, 2, 1, NoInterp>]. *)
Definition gru : GRULayer.t float := GRULayer.ctor 2 1.
Definition gruT : GRULayerT.t float :=
  GRULayerT.ctor 2 1 SampleRateCorrectionMode.NoInterp 0%Z 1%float 0%float.

(** Values of the two-byte type. *)
Definition w1 : byte * byte := (Byte.x01, Byte.x00).
Definition w2 : byte * byte := (Byte.x02, Byte.x00).
Definition w3 : byte * byte := (Byte.x03, Byte.x00).
Definition w4 : byte * byte := (Byte.x04, Byte.x00).
Definition w5 : byte * byte := (Byte.x05, Byte.x01).

(** [Dense<uint16_t>(1, 4)] of dense_ranges.h, freshly constructed. *)
Definition dense16 : DenseRanges.Dense.t (byte * byte) :=
  @DenseRanges.Dense.ctor (byte * byte) UInt16le.scalar 1 4.

(** [Dense<uint8_t>(2, 1)] of dense_ranges.h, freshly constructed. *)
Definition dense8 : DenseRanges.Dense.t byte :=
  @DenseRanges.Dense.ctor byte UInt8.scalar 2 1.

(** [Dense<double>(2, 1)] of the other revision, freshly constructed. *)
Definition dense2 : DenseRanges2.Dense.t float := DenseRanges2.Dense.ctor 2 1.

(** [Dense<uint16_t>(2, 1)] of the other revision, with weights [1, 2]
    and bias [5 + 256]. *)
Definition dense2_16 : DenseRanges2.Dense.t (byte * byte) :=
  DenseRanges2.Dense.mk 2 1 [[w1; w2; w5]]
    (DenseRanges2.Dense.inVec
       (@DenseRanges2.Dense.ctor (byte * byte) UInt16le.scalar 2 1)).

(** [Dense<uint8_t>(2, 1)] of the other revision, with weights [1, 2]
    and bias [5]. *)
Definition dense2_8 : DenseRanges2.Dense.t byte :=
  DenseRanges2.Dense.mk 2 1 [[Byte.x01; Byte.x02; Byte.x05]]
    (DenseRanges2.Dense.inVec (@DenseRanges2.Dense.ctor byte UInt8.scalar 2 1)).

(** The storage of a [DenseT<uint16_t, 2, 2>] before its constructor
    runs, and the layer after it. *)
Definition denseT_mem : DenseRanges.DenseT.t (byte * byte) :=
  DenseRanges.DenseT.mk [w1; w2] [w1; w2; w3; w4] [w3; w4].
Definition denseT16 : DenseRanges.DenseT.t (byte * byte) :=
  @DenseRanges.DenseT.ctor (byte * byte) UInt16le.objrep 2 2 denseT_mem.

(** The storage of a [DenseT<uint8_t, 2, 1>] before its constructor
    runs: it holds the weights [7, 8] and the bias [9]. *)
Definition denseT8_mem : DenseRanges.DenseT.t byte :=
  DenseRanges.DenseT.mk [Byte.x00] [Byte.x07; Byte.x08] [Byte.x09].

End MoreExamples.

(* ===================================================================== *)
(** * Properties *)
(* ===================================================================== *)


(** ** Lists *)

Lemma write_front_length {A : Type} (res dst : list A) :
  length res <= length dst -> length (write_front res dst) = length dst.
Proof.
  intros Hle. unfold write_front.
  rewrite length_app, length_skipn. lia.
Qed.

Lemma write_front_nth {A : Type} (res dst : list A) (j : nat) (d : A) :
  j < length res -> nth j (write_front res dst) d = nth j res d.
Proof.
  intros Hj. unfold write_front. now rewrite app_nth1.
Qed.

Lemma copy_front_length {A : Type} (n : nat) (src dst : list A) :
  length (copy_front n src dst) = length dst.
Proof.
  revert src dst. induction n as [|n IH]; intros [|x src] [|y dst]; simpl; auto.
Qed.

Lemma copy_front_lookup_ge {A : Type} (n : nat) (src dst : list A) (i : nat) :
  n <= i -> copy_front n src dst !! i = dst !! i.
Proof.
  revert src dst i.
  induction n as [|n IH]; intros [|x src] [|y dst] i Hi; simpl; auto.
  destruct i as [|i]; [lia|]. simpl. apply IH. lia.
Qed.

(** With a full frame, the copy overwrites exactly the front. *)
Lemma copy_front_full {A : Type} (n : nat) (src dst : list A) :
  length src = n -> n <= length dst ->
  copy_front n src dst = src ++ skipn n dst.
Proof.
  revert src dst.
  induction n as [|n IH]; intros [|x src] [|y dst] Hs Hd; simpl in *;
    try discriminate; try lia; auto.
  f_equal. apply IH; lia.
Qed.

(** ** The right fold of [AddMultiply] *)

Section FoldRow.
Context {T : Type} `{ScalarLaws T}.

(** Over exact arithmetic the fold is the initial value plus the inner
    product. *)
Lemma fold_row_dot (w x : list T) (init : T) :
  fold_row w x init = sadd init (dot w x).
Proof.
  unfold fold_row, dot.
  induction (combine w x) as [|[a c] l IH]; simpl.
  - now rewrite sadd_0_r.
  - unfold AddMultiply at 1. simpl. rewrite IH, smul_1_r.
    rewrite <- sadd_assoc. f_equal. apply sadd_comm.
Qed.
End FoldRow.

(** ** Dense: forward on the stored parameters *)

Section DenseForward.
Context {T : Type} `{Scalar T} `{ObjRep T}.
Import DenseRanges.

(** Rows of a two-dimensional array laid out row after row. *)
Lemma DenseT_rows_concat (n : nat) (W : list (list T)) :
  Forall (fun r => length r = n) W ->
  DenseT.rows n (length W) (concat W) = W.
Proof.
  unfold DenseT.rows, DenseT.row, DenseT.in_size, DenseT.out_size.
  induction 1 as [|r W Hr HW IH]; [reflexivity|].
  simpl length. rewrite <- cons_seq, <- seq_shift, map_cons, map_map.
  simpl concat. f_equal.
  - rewrite Nat.mul_0_l, skipn_O, firstn_app, Hr, Nat.sub_diag, firstn_O, app_nil_r.
    apply firstn_all2. lia.
  - rewrite <- IH at 2. apply map_ext. intros i.
    replace (S i * n) with (length r + i * n) by (rewrite Hr; lia).
    now rewrite skipn_app, skipn_all2, Nat.add_comm, Nat.add_sub by lia.
Qed.

Lemma combine_nth_lt {A B : Type} (l : list A) (l' : list B) (j : nat) (a : A) (b : B) :
  j < length l -> j < length l' ->
  nth j (combine l l') (a, b) = (nth j l a, nth j l' b).
Proof.
  revert l' j. induction l as [|u l IH]; intros [|v l'] [|j]; simpl;
    try lia; auto.
  intros. apply IH; lia.
Qed.

(** [Dense::forward] of dense_ranges.h, unit by unit: the right fold of
    the row against the input, started from the bias. *)
Lemma Dense_forward_nth (d : Dense.t T) (x out : list T) (j : nat) :
  j < length (Dense.weights d) -> j < length (Dense.bias d) ->
  nth j (Dense.forward d x out) szero
  = fold_row (nth j (Dense.weights d) []) (firstn (Dense.in_size d) x)
             (nth j (Dense.bias d) szero).
Proof.
  intros Hw Hb. unfold Dense.forward.
  set (f := fun els : list T * T =>
              fold_row (fst els) (firstn (Dense.in_size d) x) (snd els)).
  assert (Hlen : j < length (map f (combine (Dense.weights d) (Dense.bias d))))
    by (rewrite length_map, length_combine; lia).
  rewrite write_front_nth by exact Hlen.
  rewrite (nth_indep _ szero (f ([], szero))) by exact Hlen.
  rewrite map_nth, combine_nth_lt by assumption.
  reflexivity.
Qed.
End DenseForward.

Section DenseClosedForm.
Context {T : Type} `{ScalarLaws T} `{ObjRep T}.
Import DenseRanges.

(** X1.  Over exact arithmetic, [Dense::forward] of dense_ranges.h
    computes [bias[j] + sum_i weights[j][i] * input[i]] from the STORED
    weights and bias. *)
Lemma Dense_forward_closed_form (d : Dense.t T) (x out : list T) (j : nat) :
  j < length (Dense.weights d) -> j < length (Dense.bias d) ->
  nth j (Dense.forward d x out) szero
  = sadd (nth j (Dense.bias d) szero)
         (dot (nth j (Dense.weights d) []) (firstn (Dense.in_size d) x)).
Proof.
  intros Hw Hb. rewrite Dense_forward_nth by assumption.
  apply fold_row_dot.
Qed.
End DenseClosedForm.

Lemma Int_scalar_laws : @ScalarLaws Z Int.scalar.
Proof. split; intros; simpl; lia. Qed.

Lemma Dense_forward_closed_form_witness :
  nth 0 (@DenseRanges.Dense.forward Z Int.scalar DenseExamples.c [3; 4]%Z [0%Z]) 0%Z
  = (5 + (1 * 3 + (2 * 4 + 0)))%Z.
Proof.
  apply (@Dense_forward_closed_form Z Int.scalar Int_scalar_laws
           DenseExamples.c [3; 4]%Z [0%Z] 0); simpl; lia.
Defined.

Lemma double_neq (a b : float) :
  Double.to_bits a <> Double.to_bits b -> a <> b.
Proof. intros Hne Heq. apply Hne. now rewrite Heq. Qed.

(** C1 (code defect).  [T = double], [in_size = 2], [out_size = 1],
    weights [[1, 2]], bias [0.5], input [3, 4]: the specification's
    output is [11.5].
    - dense_ranges.h: [setBias] copies [out_size] = 1 BYTE of the bias, so
      the stored bias stays [0] and [forward] writes [11].
    - the other revision: [forward] copies [in_size] = 2 BYTES of the
      input into [inVec], which stays [0, 0, 1]; with the parameters
      stored as that revision lays them out, [forward] writes [0.5]. *)
Theorem C1_dense_forward_double_example :
  DenseRanges.Dense.forward DenseDouble.example [3; 4]%float [0%float]
    = [11%float]
  /\ snd (DenseRanges2.Dense.forward DenseDouble.example2 [3; 4]%float [0%float])
    = [0.5%float]
  /\ 11%float <> 11.5%float /\ 0.5%float <> 11.5%float.
Proof.
  split; [vm_compute; reflexivity|].
  split; [vm_compute; reflexivity|].
  split; apply double_neq; vm_compute; discriminate.
Qed.

(** C5 (code defect).  [T = double], dense_ranges.h: after
    [setBias({0.5})] on a fresh [Dense(2, 1)], [getBias(0)] is [0], not
    [0.5]: [memcpy(bias.data(), b, out_size)] copies one byte.  With two
    units and the bias [1, 2], two bytes are copied and both stored
    values stay [0]. *)
Theorem C5_dense_setBias_getBias_double :
  DenseRanges.Dense.getBias
    (DenseRanges.Dense.setBias (DenseRanges.Dense.ctor 2 1) [0.5%float]) 0
    = 0%float
  /\ 0%float <> 0.5%float
  /\ map (DenseRanges.Dense.getBias
            (DenseRanges.Dense.setBias (DenseRanges.Dense.ctor 2 2) [1; 2]%float))
         [0; 1]
     = [0; 0]%float.
Proof.
  split; [vm_compute; reflexivity|].
  split; [apply double_neq; vm_compute; discriminate|].
  vm_compute; reflexivity.
Qed.

(** The two [forward] functions of dense_ranges.h are one algorithm: a
    runtime-sized and a compile-time-sized layer that HOLD the same
    weights (a vector of rows in one, a two-dimensional array in the
    other) and the same bias write the same output for every input,
    whatever the arithmetic of [T] is. *)
Lemma Dense_DenseT_forward_stored
    {T : Type} `{Scalar T}
    (in_size out_size : nat) (W : list (list T)) (b x out0 iv ov : list T) :
  length W = out_size ->
  Forall (fun r => length r = in_size) W ->
  length b = out_size ->
  DenseRanges.Dense.forward
    (DenseRanges.Dense.mk in_size out_size W b iv ov) x out0
  = DenseRanges.DenseT.outs
      (DenseRanges.DenseT.forward in_size out_size
         (DenseRanges.DenseT.mk out0 (concat W) b) x).
Proof.
  intros HW Hrows Hb.
  unfold DenseRanges.Dense.forward, DenseRanges.DenseT.forward. simpl.
  rewrite <- HW, DenseT_rows_concat by assumption.
  unfold DenseRanges.DenseT.in_size, DenseRanges.DenseT.out_size.
  now rewrite HW, <- Hb, firstn_all.
Qed.

(** C10 (code defect).  [T = double], [in_size = 2], [out_size = 1]: the
    runtime-sized and the compile-time-sized layer of dense_ranges.h,
    both constructed and then configured with [setWeights({{1, 2}})] and
    [setBias({0.5})], given the input [3, 4].
    - [Dense]: [setWeights] assigns the rows and [setBias] copies
      [out_size] = 1 BYTE; the layer holds the weights [1, 2] and the
      bias [0], and [forward] writes [11].
    - [DenseT]: [setWeights] copies [in_size] = 2 BYTES of the row and
      [setBias] 1 BYTE; the layer holds the weights [0, 0] and the bias
      [0], and [forward] writes [0].
    The outputs differ, and neither is [11.5].  The two [forward]
    functions agree on what is stored ([Dense_DenseT_forward_stored]);
    the setters do not store the same. *)
Theorem C10_dense_dynamic_static_configured :
  DenseRanges.Dense.weights DenseDouble.example = [[1; 2]]%float /\
  DenseRanges.Dense.bias DenseDouble.example = [0%float] /\
  DenseRanges.DenseT.weights DenseDouble.exampleT = [0; 0]%float /\
  DenseRanges.DenseT.bias DenseDouble.exampleT = [0%float] /\
  DenseRanges.Dense.forward DenseDouble.example [3; 4]%float [0%float]
    = [11%float] /\
  DenseRanges.DenseT.outs
    (DenseRanges.DenseT.forward 2 1 DenseDouble.exampleT [3; 4]%float)
    = [0%float] /\
  11%float <> 0%float /\ 11%float <> 11.5%float /\ 0%float <> 11.5%float.
Proof.
  repeat (split; [vm_compute; reflexivity|]).
  repeat split; apply double_neq; vm_compute; discriminate.
Qed.

(** ** Matrices *)

Section Matrices.
Context {T : Type} `{Scalar T}.

Lemma ZeroM_shape (r c : nat) : mat_shape r c (ZeroM r c).
Proof.
  split; unfold ZeroM, Zero.
  - apply repeat_length.
  - apply Forall_forall. intros row Hin.
    apply list_elem_of_In, repeat_spec in Hin. subst row. apply repeat_length.
Qed.

Lemma mat_set_shape (r c : nat) (m : list (list T)) (k i : nat) (v : T) :
  mat_shape r c m -> mat_shape r c (mat_set m k i v).
Proof.
  intros [Hr Hc]. unfold mat_set. split.
  - now rewrite length_alter.
  - apply Forall_forall. intros row Hin.
    apply list_elem_of_lookup in Hin. destruct Hin as [j Hj].
    destruct (decide (k = j)) as [->|Hne].
    + rewrite list_lookup_alter_eq in Hj.
      destruct (m !! j) as [row0|] eqn:E; simplify_eq/=.
      rewrite length_insert.
      rewrite Forall_forall in Hc. apply Hc.
      apply list_elem_of_lookup. eauto.
    + rewrite list_lookup_alter_ne in Hj by assumption.
      rewrite Forall_forall in Hc. apply Hc.
      apply list_elem_of_lookup. eauto.
Qed.

Lemma mat_get_set_eq (r c : nat) (m : list (list T)) (k i : nat) (v : T) :
  mat_shape r c m -> k < r -> i < c -> mat_get (mat_set m k i v) k i = v.
Proof.
  intros [Hr Hc] Hk Hi. unfold mat_get, mat_set.
  rewrite !nth_lookup, list_lookup_alter_eq.
  destruct (lookup_lt_is_Some_2 m k ltac:(lia)) as [row Hrow].
  rewrite Hrow. simpl.
  rewrite list_lookup_insert_eq; [reflexivity|].
  rewrite Forall_forall in Hc. rewrite (Hc row); [assumption|].
  apply list_elem_of_lookup. eauto.
Qed.

Lemma mat_get_set_ne (m : list (list T)) (k i k' i' : nat) (v : T) :
  k <> k' \/ i <> i' -> mat_get (mat_set m k i v) k' i' = mat_get m k' i'.
Proof.
  intros Hne. unfold mat_get, mat_set. rewrite !nth_lookup.
  destruct (decide (k = k')) as [->|Hk].
  - rewrite list_lookup_alter_eq.
    destruct (m !! k') as [row|]; simpl; [|reflexivity].
    rewrite list_lookup_insert_ne by (destruct Hne; congruence). reflexivity.
  - now rewrite list_lookup_alter_ne.
Qed.

Lemma fill_col_shape (r c0 c : nat) (f : nat -> T) (n : nat) (m : list (list T)) :
  mat_shape r c0 m -> mat_shape r c0 (fill_col c f n m).
Proof.
  intros Hm. unfold fill_col. induction n as [|n IH]; [exact Hm|].
  rewrite seq_S, fold_left_app. simpl. now apply mat_set_shape.
Qed.

Lemma fill_col_get (r c0 c : nat) (f : nat -> T) (n : nat) (m : list (list T)) (k : nat) :
  mat_shape r c0 m -> n <= r -> c < c0 -> k < n ->
  mat_get (fill_col c f n m) k c = f k.
Proof.
  intros Hm Hn Hc. unfold fill_col. induction n as [|n IH]; intros Hk; [lia|].
  rewrite seq_S, fold_left_app. simpl.
  destruct (decide (k = n)) as [->|Hne].
  - apply (mat_get_set_eq r c0); [now apply fill_col_shape | lia | lia].
  - rewrite mat_get_set_ne by (left; lia). apply IH; lia.
Qed.

Lemma fill_col_get_other (c : nat) (f : nat -> T) (n : nat) (m : list (list T)) (k i : nat) :
  n <= k \/ i <> c -> mat_get (fill_col c f n m) k i = mat_get m k i.
Proof.
  intros Hki. unfold fill_col. induction n as [|n IH]; [reflexivity|].
  rewrite seq_S, fold_left_app. simpl.
  rewrite mat_get_set_ne by (destruct Hki; [left|right]; lia).
  apply IH. destruct Hki; [left|right]; lia.
Qed.

End Matrices.

(** ** GRULayer (dynamic): the weight setters *)

Section GRULayerSetters.
Context {T : Type} `{Scalar T}.
Import GRULayer.

(** What the loop of [setBVals] does to each member, for any list of row
    indices. *)
Lemma GRULayer_setBVals_loop (bVals : list (list T)) (ks : list nat) (l : t T) :
  let l' :=
    fold_left
      (fun l k =>
         with_U
           (with_W l (mat_set (wCombinedWeights l) k (in_size l) (mat_get bVals 0 k)))
           (mat_set (uCombinedWeights l) k (out_size l) (mat_get bVals 1 k)))
      ks l in
  in_size l' = in_size l /\ out_size l' = out_size l /\
  wCombinedWeights l'
    = fold_left (fun w k => mat_set w k (in_size l) (mat_get bVals 0 k)) ks
                (wCombinedWeights l) /\
  uCombinedWeights l'
    = fold_left (fun u k => mat_set u k (out_size l) (mat_get bVals 1 k)) ks
                (uCombinedWeights l) /\
  extendedInVec l' = extendedInVec l /\ extendedHt1 l' = extendedHt1 l.
Proof.
  revert l. induction ks as [|k ks IH]; intros l; simpl; [tauto|].
  destruct (IH (with_U
           (with_W l (mat_set (wCombinedWeights l) k (in_size l) (mat_get bVals 0 k)))
           (mat_set (uCombinedWeights l) k (out_size l) (mat_get bVals 1 k))))
    as (Hi & Ho & Hw & Hu & Hx & Hh).
  simpl in *. rewrite Hi, Ho, Hw, Hu, Hx, Hh. tauto.
Qed.

(** X2.  [setBVals] of the dynamic layer fills all [3 * out_size] bias
    entries of both combined matrices: afterwards [W(k, in_size)] is
    [bVals[0][k]] and [U(k, out_size)] is [bVals[1][k]]. *)
Lemma GRULayer_setBVals_stored (l : t T) (bVals : list (list T)) (k : nat) :
  mat_shape (3 * out_size l) (in_size l + 1) (wCombinedWeights l) ->
  mat_shape (3 * out_size l) (out_size l + 1) (uCombinedWeights l) ->
  k < 3 * out_size l ->
  mat_get (wCombinedWeights (setBVals l bVals)) k (in_size l)
    = mat_get bVals 0 k /\
  mat_get (uCombinedWeights (setBVals l bVals)) k (out_size l)
    = mat_get bVals 1 k.
Proof.
  intros HW HU Hk. unfold setBVals.
  destruct (GRULayer_setBVals_loop bVals (seq 0 (out_size l * 3)) l)
    as (_ & _ & Hw & Hu & _).
  cbv zeta in Hw, Hu. rewrite Hw, Hu.
  split.
  - apply (fill_col_get (3 * out_size l) (in_size l + 1) (in_size l)
             (fun k => mat_get bVals 0 k)); [assumption | lia | lia | lia].
  - apply (fill_col_get (3 * out_size l) (out_size l + 1) (out_size l)
             (fun k => mat_get bVals 1 k)); [assumption | lia | lia | lia].
Qed.

End GRULayerSetters.

Lemma GRULayer_setBVals_stored_witness :
  mat_get (GRULayer.wCombinedWeights
             (GRULayer.setBVals GRUExamples.fresh_dynamic GRUExamples.bVals)) 1 1
    = mat_get GRUExamples.bVals 0 1 /\
  mat_get (GRULayer.uCombinedWeights
             (GRULayer.setBVals GRUExamples.fresh_dynamic GRUExamples.bVals)) 1 1
    = mat_get GRUExamples.bVals 1 1.
Proof.
  apply (GRULayer_setBVals_stored GRUExamples.fresh_dynamic GRUExamples.bVals 1).
  - apply (ZeroM_shape 3 2).
  - apply (ZeroM_shape 3 2).
  - simpl. lia.
Defined.

(** ** GRULayerT (static): the weight setters *)

Section GRULayerTSetters.
Context {T : Type} `{Scalar T}.
Variables in_sizet out_sizet : nat.
Import GRULayerT.

Lemma GRULayerT_setBVals_loop (bVals : list (list T)) (ks : list nat) (l : t T) :
  let l' :=
    fold_left
      (fun l k =>
         with_U
           (with_W l (mat_set (wCombinedWeights l) k in_sizet (mat_get bVals 0 k)))
           (mat_set (uCombinedWeights l) k out_sizet (mat_get bVals 1 k)))
      ks l in
  wCombinedWeights l'
    = fold_left (fun w k => mat_set w k in_sizet (mat_get bVals 0 k)) ks
                (wCombinedWeights l) /\
  uCombinedWeights l'
    = fold_left (fun u k => mat_set u k out_sizet (mat_get bVals 1 k)) ks
                (uCombinedWeights l) /\
  extendedInVec l' = extendedInVec l /\ extendedHt1 l' = extendedHt1 l /\
  outs l' = outs l /\ outs_delayed l' = outs_delayed l /\
  delayWriteIdx l' = delayWriteIdx l /\
  delayMult l' = delayMult l /\ delayPlus1Mult l' = delayPlus1Mult l.
Proof.
  revert l. induction ks as [|k ks IH]; intros l; simpl; [tauto|].
  destruct (IH (with_U
           (with_W l (mat_set (wCombinedWeights l) k in_sizet (mat_get bVals 0 k)))
           (mat_set (uCombinedWeights l) k out_sizet (mat_get bVals 1 k))))
    as (Hw & Hu & Hx & Hh & Ho & Hd & Hi & Hm & Hp).
  simpl in *. rewrite Hw, Hu, Hx, Hh, Ho, Hd, Hi, Hm, Hp. tauto.
Qed.

(** X3.  The static layer's loop stops at [out_size]: rows
    [out_size <= k < 3 * out_size] of the bias columns keep what they
    held. *)
Lemma GRULayerT_setBVals_rows_kept (l : t T) (bVals : list (list T)) (k : nat) :
  out_sizet <= k ->
  mat_get (wCombinedWeights (setBVals in_sizet out_sizet l bVals)) k in_sizet
    = mat_get (wCombinedWeights l) k in_sizet /\
  mat_get (uCombinedWeights (setBVals in_sizet out_sizet l bVals)) k out_sizet
    = mat_get (uCombinedWeights l) k out_sizet.
Proof.
  intros Hk. unfold setBVals, out_size.
  destruct (GRULayerT_setBVals_loop bVals (seq 0 out_sizet) l)
    as (Hw & Hu & _).
  cbv zeta in Hw, Hu. rewrite Hw, Hu.
  split.
  - apply (fill_col_get_other in_sizet (fun k => mat_get bVals 0 k)). now left.
  - apply (fill_col_get_other out_sizet (fun k => mat_get bVals 1 k)). now left.
Qed.

End GRULayerTSetters.

Lemma GRULayerT_setBVals_rows_kept_witness :
  mat_get (GRULayerT.wCombinedWeights
             (GRULayerT.setBVals 1 1 GRUExamples.fresh GRUExamples.bVals)) 2 1
    = mat_get (GRULayerT.wCombinedWeights GRUExamples.fresh) 2 1 /\
  mat_get (GRULayerT.uCombinedWeights
             (GRULayerT.setBVals 1 1 GRUExamples.fresh GRUExamples.bVals)) 2 1
    = mat_get (GRULayerT.uCombinedWeights GRUExamples.fresh) 2 1.
Proof.
  apply (GRULayerT_setBVals_rows_kept 1 1 GRUExamples.fresh GRUExamples.bVals 2).
  lia.
Defined.

(** ** Rounding on [Q] *)

Lemma Qceiling_unique (y : Q) (k : Z) :
  (inject_Z (k - 1) < y)%Q -> (y <= inject_Z k)%Q -> Qceiling y = k.
Proof.
  intros Hlo Hhi.
  pose proof (Qle_ceiling y) as Hc1. pose proof (Qceiling_lt y) as Hc2.
  assert (H1 : (inject_Z (Qceiling y - 1) < inject_Z k)%Q)
    by (eapply Qlt_le_trans; eassumption).
  assert (H2 : (inject_Z (k - 1) < inject_Z (Qceiling y))%Q)
    by (eapply Qlt_le_trans; eassumption).
  rewrite <- Zlt_Qlt in H1, H2. lia.
Qed.

Lemma inject_Z_pred (k : Z) : (inject_Z (k - 1) == inject_Z k - 1)%Q.
Proof.
  replace (k - 1)%Z with (k + -1)%Z by lia.
  rewrite inject_Z_plus. unfold Qminus. apply Qplus_comp; reflexivity.
Qed.

Lemma Qceiling_minus_Z (x : Q) (n : Z) :
  Qceiling (x - inject_Z n) = (Qceiling x - n)%Z.
Proof.
  pose proof (Qle_ceiling x) as Hc1. pose proof (Qceiling_lt x) as Hc2.
  rewrite inject_Z_pred in Hc2.
  assert (Hn : (inject_Z (Qceiling x - n) == inject_Z (Qceiling x) - inject_Z n)%Q).
  { replace (Qceiling x - n)%Z with (Qceiling x + - n)%Z by lia.
    rewrite inject_Z_plus, inject_Z_opp. reflexivity. }
  apply Qceiling_unique.
  - rewrite inject_Z_pred, Hn. lra.
  - rewrite Hn. lra.
Qed.

Lemma Qceiling_floor (d : Q) :
  ((d == inject_Z (Qfloor d))%Q -> Qceiling d = Qfloor d) /\
  (~ (d == inject_Z (Qfloor d))%Q -> Qceiling d = (Qfloor d + 1)%Z).
Proof.
  pose proof (Qfloor_le d) as Hf1. pose proof (Qlt_floor d) as Hf2.
  split.
  - intros Heq. rewrite Heq at 1. apply Qceiling_Z.
  - intros Hne. apply Qceiling_unique.
    + replace (Qfloor d + 1 - 1)%Z with (Qfloor d) by lia.
      apply Qle_lteq in Hf1. destruct Hf1 as [Hlt|Heq]; [exact Hlt|].
      exfalso. apply Hne. now symmetry.
    + now apply Qlt_le_weak.
Qed.

Lemma Rat_to_int_inject_Z (z : Z) : to_int (inject_Z z) = z.
Proof. simpl. apply Z.quot_1_r. Qed.

(** ** GRULayerT: [prepare] and [reset] *)

Section GRULayerTState.
Context {T : Type} `{Scalar T}.
Variable out_sizet : nat.
Variable sampleRateCorr : SampleRateCorrectionMode.t.
Import GRULayerT.

Lemma GRULayerT_resize_length (n : nat) (v : list (list T)) :
  length (resize out_sizet n v) = n.
Proof.
  unfold resize. rewrite length_app, length_take, repeat_length. lia.
Qed.

Lemma GRULayerT_reset_buffer_length (l : t T) :
  length (outs_delayed (reset out_sizet sampleRateCorr l))
  = length (outs_delayed l).
Proof.
  unfold reset. simpl.
  destruct (SampleRateCorrectionMode.eqb _ _); [reflexivity|].
  apply length_map.
Qed.

End GRULayerTState.

(** C3 (code defect).  [GRULayerT<double, 1, 1>::setBVals] with the
    sources [1, 2, 3] and [4, 5, 6]: only row 0 of the bias columns is
    written; rows 1 and 2 (update and candidate gate) keep [0].  The loop
    runs to [out_size], not to [3 * out_size].  The dynamic
    [GRULayer::setBVals] writes all three rows. *)
Theorem C3_GRULayerT_setBVals_example :
  let l := GRULayerT.setBVals 1 1 GRUExamples.fresh GRUExamples.bVals in
  let d := GRULayer.setBVals GRUExamples.fresh_dynamic GRUExamples.bVals in
  map (fun k => mat_get (GRULayerT.wCombinedWeights l) k 1) [0; 1; 2]
    = [1; 0; 0]%float /\
  map (fun k => mat_get (GRULayerT.uCombinedWeights l) k 1) [0; 1; 2]
    = [4; 0; 0]%float /\
  map (fun k => mat_get (GRULayer.wCombinedWeights d) k 1) [0; 1; 2]
    = [1; 2; 3]%float /\
  map (fun k => mat_get (GRULayer.uCombinedWeights d) k 1) [0; 1; 2]
    = [4; 5; 6]%float /\
  0%float <> 2%float.
Proof.
  repeat split; try (vm_compute; reflexivity).
  apply double_neq; vm_compute; discriminate.
Qed.

(** C9 (code defect).  The copy constructor of the dynamic GRU layer
    builds a layer of the same sizes with all-zero combined weights.  The
    copy assignment never returns: whatever the depth allowed, the call
    has not produced a layer. *)
Theorem C9_GRULayer_copy {T : Type} `{Scalar T} :
  (forall other : GRULayer.t T,
     GRULayer.in_size (GRULayer.copy_ctor other) = GRULayer.in_size other /\
     GRULayer.out_size (GRULayer.copy_ctor other) = GRULayer.out_size other /\
     GRULayer.wCombinedWeights (GRULayer.copy_ctor other)
       = ZeroM (3 * GRULayer.out_size other) (GRULayer.in_size other + 1) /\
     GRULayer.uCombinedWeights (GRULayer.copy_ctor other)
       = ZeroM (3 * GRULayer.out_size other) (GRULayer.out_size other + 1)) /\
  (forall (fuel : nat) (this other : GRULayer.t T),
     GRULayer.operator_assign fuel this other = None).
Proof.
  split.
  - intros other. repeat split.
  - induction fuel as [|fuel IH]; intros this other; simpl; [reflexivity|].
    apply IH.
Qed.

(** X26.  The copy assignment of [Dense] in dense_ranges.h never returns
    either: [*this = Dense(other)] selects the same operator again,
    whatever the depth allowed. *)
Lemma Dense_operator_assign_never_returns {T : Type} `{Scalar T} `{ObjRep T}
    (fuel : nat) (this other : DenseRanges.Dense.t T) :
  DenseRanges.Dense.operator_assign fuel this other = None.
Proof.
  revert this other.
  induction fuel as [|fuel IH]; intros this other; simpl; [reflexivity|].
  apply IH.
Qed.

(** C4, the claim as stated fails: after [prepare(3)] in integer mode the
    delay buffer holds 3 slots, not [ceil(3) + 1 = 4]; after
    [prepare(2.5)] in fractional mode it holds 3 slots, not
    [ceil(2.5) + 1 = 4]. *)
Lemma C4_prepare_buffer_size_counterexample :
  length (GRULayerT.outs_delayed
            (GRULayerT.prepare_NoInterp 1 SampleRateCorrectionMode.NoInterp
               (GRUExamples.fresh_rat SampleRateCorrectionMode.NoInterp) 3%Z))
    <> Z.to_nat (3 + 1) /\
  length (GRULayerT.outs_delayed
            (GRULayerT.prepare_LinInterp 1 SampleRateCorrectionMode.LinInterp
               (GRUExamples.fresh_rat SampleRateCorrectionMode.LinInterp) (5 # 2)%Q))
    <> Z.to_nat (Qceiling (5 # 2) + 1).
Proof. split; vm_compute; discriminate. Qed.

(** C4, amended.  For [0 <= delaySamples < INT_MAX], the delays for
    which no conversion to [int] and no [int] addition of [prepare]
    overflows: in integer mode the delay buffer holds exactly
    [delaySamples] slots after [prepare]; in fractional mode it holds
    [floor(delaySamples) + 1] slots, which is [ceil(delaySamples) + 1]
    when [delaySamples] is a whole number and [ceil(delaySamples)] when
    it is not.  Every [int] that the two overloads compute lies in the
    range of [int]. *)
Theorem C4_prepare_buffer_size
    (out_sizet : nat) (l : GRULayerT.t Q) (n : Z) (d : Q) :
  (0 <= n <= INT_MAX)%Z -> (0 <= d)%Q -> (d < inject_Z INT_MAX)%Q ->
  let int_mode :=
    GRULayerT.prepare_NoInterp out_sizet SampleRateCorrectionMode.NoInterp l n in
  let frac_mode :=
    GRULayerT.prepare_LinInterp out_sizet SampleRateCorrectionMode.LinInterp l d in
  length (GRULayerT.outs_delayed int_mode) = Z.to_nat n /\
  length (GRULayerT.outs_delayed frac_mode) = Z.to_nat (Qfloor d + 1) /\
  ((d == inject_Z (Qfloor d))%Q ->
   length (GRULayerT.outs_delayed frac_mode) = Z.to_nat (Qceiling d + 1)) /\
  (~ (d == inject_Z (Qfloor d))%Q ->
   length (GRULayerT.outs_delayed frac_mode) = Z.to_nat (Qceiling d)) /\
  (int_range (GRULayerT.delayWriteIdx int_mode) /\
   int_range (GRULayerT.delayWriteIdx int_mode + 1)) /\
  (int_range (Qceiling d) /\
   int_range (Qceiling (d - inject_Z (Qfloor d))) /\
   int_range (GRULayerT.delayWriteIdx frac_mode) /\
   int_range (GRULayerT.delayWriteIdx frac_mode + 1)).
Proof.
  intros Hn Hd Hmax int_mode frac_mode.
  assert (Hint : length (GRULayerT.outs_delayed int_mode) = Z.to_nat n).
  { unfold int_mode, GRULayerT.prepare_NoInterp.
    rewrite GRULayerT_reset_buffer_length. simpl.
    rewrite GRULayerT_resize_length. f_equal. lia. }
  assert (Hidx : GRULayerT.delayWriteIdx frac_mode = Qfloor d).
  { unfold frac_mode, GRULayerT.prepare_LinInterp.
    cbn [GRULayerT.delayWriteIdx GRULayerT.reset GRULayerT.with_delay].
    cbn [sceil sfloor ssub Rat.rounding Rat.scalar].
    rewrite !Rat_to_int_inject_Z, Qceiling_minus_Z. lia. }
  assert (Hfrac : length (GRULayerT.outs_delayed frac_mode) = Z.to_nat (Qfloor d + 1)).
  { unfold frac_mode, GRULayerT.prepare_LinInterp.
    rewrite GRULayerT_reset_buffer_length.
    cbn [GRULayerT.outs_delayed GRULayerT.with_delay].
    rewrite GRULayerT_resize_length. f_equal.
    cbn [sceil sfloor ssub Rat.rounding Rat.scalar].
    rewrite !Rat_to_int_inject_Z, Qceiling_minus_Z. lia. }
  assert (Hfl0 : (0 <= Qfloor d)%Z).
  { change 0%Z with (Qfloor (inject_Z 0)). apply Qfloor_resp_le. exact Hd. }
  assert (Hfl : (Qfloor d < INT_MAX)%Z).
  { apply Z.lt_nge. intros Hge.
    apply (Qlt_not_le _ _ Hmax).
    apply Qle_trans with (inject_Z (Qfloor d)); [|apply Qfloor_le].
    rewrite <- Zle_Qle. exact Hge. }
  destruct (Qceiling_floor d) as [Hwhole Hpart].
  assert (Hceil : (Qfloor d <= Qceiling d <= Qfloor d + 1)%Z).
  { destruct (Qeq_dec d (inject_Z (Qfloor d))) as [He | Hne].
    - rewrite (Hwhole He). lia.
    - rewrite (Hpart Hne). lia. }
  assert (Hcf : (Qceiling (d - inject_Z (Qfloor d)) = Qceiling d - Qfloor d)%Z)
    by apply Qceiling_minus_Z.
  unfold int_range, INT_MIN, INT_MAX in *.
  split; [exact Hint|]. split; [exact Hfrac|].
  split; [intros Heq; rewrite Hfrac, (Hwhole Heq); reflexivity|].
  split; [intros Hne; rewrite Hfrac, (Hpart Hne); reflexivity|].
  split.
  - unfold int_mode, GRULayerT.prepare_NoInterp.
    cbn [GRULayerT.delayWriteIdx GRULayerT.reset GRULayerT.with_delay]. lia.
  - rewrite Hidx, Hcf. lia.
Qed.

Lemma C4_prepare_buffer_size_witness :
  length (GRULayerT.outs_delayed
            (GRULayerT.prepare_NoInterp 1 SampleRateCorrectionMode.NoInterp
               (GRUExamples.fresh_rat SampleRateCorrectionMode.NoInterp) 3%Z))
    = 3 /\
  length (GRULayerT.outs_delayed
            (GRULayerT.prepare_LinInterp 1 SampleRateCorrectionMode.LinInterp
               (GRUExamples.fresh_rat SampleRateCorrectionMode.LinInterp) (5 # 2)%Q))
    = 3.
Proof.
  assert (Hn : (0 <= 3 <= INT_MAX)%Z) by (unfold INT_MAX; lia).
  assert (Hd : (0 <= 5 # 2)%Q) by (unfold Qle; simpl; lia).
  assert (Hmax : (5 # 2 < inject_Z INT_MAX)%Q) by reflexivity.
  split.
  - exact (proj1 (C4_prepare_buffer_size 1
             (GRUExamples.fresh_rat SampleRateCorrectionMode.NoInterp)
             3%Z (5 # 2)%Q Hn Hd Hmax)).
  - exact (proj1 (proj2 (C4_prepare_buffer_size 1
             (GRUExamples.fresh_rat SampleRateCorrectionMode.LinInterp)
             3%Z (5 # 2)%Q Hn Hd Hmax))).
Defined.

(** ** GRU: the appended constant and the shape of the state *)

Section GRUInvariants.
Context {T : Type} `{Scalar T}.

Lemma Zero_length (n : nat) : length (Zero n : list T) = n.
Proof. apply repeat_length. Qed.

Lemma appended_one (n : nat) :
  <[n := sone]> (Zero (n + 1) : list T) !! n = Some sone.
Proof. apply list_lookup_insert_eq. rewrite Zero_length. lia. Qed.

Lemma appended_one_length (n : nat) :
  length (<[n := sone]> (Zero (n + 1) : list T)) = n + 1.
Proof. now rewrite length_insert, Zero_length. Qed.

End GRUInvariants.

Section GRULayerTInvariants.
Context {T : Type} `{Scalar T} `{Activations T} `{Rounding T}.
Variables in_sizet out_sizet : nat.
Variable sampleRateCorr : SampleRateCorrectionMode.t.

Local Abbreviation wf := (GRULayerT_wf in_sizet out_sizet sampleRateCorr).
Local Abbreviation ext_ok := (GRULayerT_ext_ok in_sizet out_sizet).

Lemma GRULayerT_ctor_wf (idx0 : Z) (mult0 plus1Mult0 : T) :
  wf (GRULayerT.ctor in_sizet out_sizet sampleRateCorr idx0 mult0 plus1Mult0).
Proof.
  unfold GRULayerT_wf, GRULayerT_ext_ok, GRULayerT.ctor, GRULayerT.reset. simpl.
  rewrite !appended_one, !appended_one_length.
  repeat split. intros _. now destruct (SampleRateCorrectionMode.eqb _ _).
Qed.

Lemma GRULayerT_reset_wf (l : GRULayerT.t T) :
  wf l -> wf (GRULayerT.reset out_sizet sampleRateCorr l).
Proof.
  unfold GRULayerT_wf, GRULayerT_ext_ok, GRULayerT.reset. simpl.
  intros (Hext & Hx & Hh & Hbuf). repeat split; try tauto.
  intros Hmode. rewrite (Hbuf Hmode). now destruct (SampleRateCorrectionMode.eqb _ _).
Qed.

Lemma GRULayerT_reset_ext_ok (l : GRULayerT.t T) :
  ext_ok l -> ext_ok (GRULayerT.reset out_sizet sampleRateCorr l).
Proof. intros Hext. exact Hext. Qed.

Lemma GRULayerT_prepare_NoInterp_ext_ok (l : GRULayerT.t T) (delaySamples : Z) :
  ext_ok l ->
  ext_ok (GRULayerT.prepare_NoInterp out_sizet sampleRateCorr l delaySamples).
Proof. intros Hext. exact Hext. Qed.

Lemma GRULayerT_prepare_LinInterp_ext_ok (l : GRULayerT.t T) (delaySamples : T) :
  ext_ok l ->
  ext_ok (GRULayerT.prepare_LinInterp out_sizet sampleRateCorr l delaySamples).
Proof. intros Hext. exact Hext. Qed.

(** [prepare] belongs to the correcting modes. *)
Lemma GRULayerT_prepare_NoInterp_wf (l : GRULayerT.t T) (delaySamples : Z) :
  sampleRateCorr = SampleRateCorrectionMode.NoInterp ->
  wf l -> wf (GRULayerT.prepare_NoInterp out_sizet sampleRateCorr l delaySamples).
Proof.
  intros Hmode (Hext & Hx & Hh & _).
  split; [exact Hext|]. split; [exact Hx|]. split; [exact Hh|].
  intros Hnone. congruence.
Qed.

Lemma GRULayerT_prepare_LinInterp_wf (l : GRULayerT.t T) (delaySamples : T) :
  sampleRateCorr = SampleRateCorrectionMode.LinInterp ->
  wf l -> wf (GRULayerT.prepare_LinInterp out_sizet sampleRateCorr l delaySamples).
Proof.
  intros Hmode (Hext & Hx & Hh & _).
  split; [exact Hext|]. split; [exact Hx|]. split; [exact Hh|].
  intros Hnone. congruence.
Qed.

Lemma GRULayerT_setWVals_wf (l : GRULayerT.t T) (wVals : list (list T)) :
  wf l -> wf (GRULayerT.setWVals in_sizet out_sizet l wVals).
Proof. intros Hwf. exact Hwf. Qed.

Lemma GRULayerT_setUVals_wf (l : GRULayerT.t T) (uVals : list (list T)) :
  wf l -> wf (GRULayerT.setUVals out_sizet l uVals).
Proof. intros Hwf. exact Hwf. Qed.

Lemma GRULayerT_setBVals_wf (l : GRULayerT.t T) (bVals : list (list T)) :
  wf l -> wf (GRULayerT.setBVals in_sizet out_sizet l bVals).
Proof.
  unfold GRULayerT_wf, GRULayerT_ext_ok, GRULayerT.setBVals.
  destruct (GRULayerT_setBVals_loop in_sizet out_sizet bVals
              (seq 0 (GRULayerT.out_size out_sizet)) l)
    as (_ & _ & Hx & Hh & _ & Hd & _).
  cbv zeta in Hx, Hh, Hd. rewrite Hx, Hh, Hd. tauto.
Qed.

Lemma GRULayerT_kernel_wf (l : GRULayerT.t T) (ins : list T) :
  wf l -> wf (GRULayerT.kernel in_sizet out_sizet l ins).
Proof.
  unfold GRULayerT_wf, GRULayerT_ext_ok, GRULayerT.kernel. simpl.
  intros ((Hx1 & Hh1) & Hx & Hh & Hbuf).
  rewrite !copy_front_lookup_ge, !copy_front_length by lia. tauto.
Qed.

Lemma GRULayerT_delay_stage_wf (l : GRULayerT.t T) :
  wf l -> wf (fst (GRULayerT.delay_stage out_sizet sampleRateCorr l)).
Proof.
  unfold GRULayerT_wf, GRULayerT_ext_ok, GRULayerT.delay_stage.
  intros (Hext & Hx & Hh & Hbuf).
  destruct sampleRateCorr; simpl; repeat split; try tauto; intros; discriminate.
Qed.

Lemma GRULayerT_forward_wf (l : GRULayerT.t T) (ins : list T) :
  wf l -> wf (GRULayerT.forward in_sizet out_sizet sampleRateCorr l ins).
Proof.
  intros Hwf. unfold GRULayerT.forward.
  now apply GRULayerT_delay_stage_wf, GRULayerT_kernel_wf.
Qed.

Lemma GRULayerT_forward_ext_ok (l : GRULayerT.t T) (ins : list T) :
  ext_ok l -> ext_ok (GRULayerT.forward in_sizet out_sizet sampleRateCorr l ins).
Proof.
  unfold GRULayerT_ext_ok, GRULayerT.forward, GRULayerT.delay_stage.
  intros (Hx & Hh).
  assert (Hk : ext_ok (GRULayerT.kernel in_sizet out_sizet l ins)).
  { unfold GRULayerT_ext_ok, GRULayerT.kernel. simpl.
    rewrite !copy_front_lookup_ge by lia. tauto. }
  destruct sampleRateCorr; exact Hk.
Qed.

End GRULayerTInvariants.

Section GRULayerInvariants.
Context {T : Type} `{Scalar T}.

Lemma GRULayer_ctor_ext_ok (in_size out_size : nat) :
  GRULayer_ext_ok (GRULayer.ctor in_size out_size : GRULayer.t T).
Proof. split; simpl; apply appended_one. Qed.

Lemma GRULayer_setBVals_ext_ok (l : GRULayer.t T) (bVals : list (list T)) :
  GRULayer_ext_ok l -> GRULayer_ext_ok (GRULayer.setBVals l bVals).
Proof.
  unfold GRULayer_ext_ok, GRULayer.setBVals.
  destruct (GRULayer_setBVals_loop bVals (seq 0 (GRULayer.out_size l * 3)) l)
    as (Hi & Ho & _ & _ & Hx & Hh).
  cbv zeta in Hi, Ho, Hx, Hh. rewrite Hi, Ho, Hx, Hh. tauto.
Qed.

End GRULayerInvariants.

(** C6.  [GRULayerT::reset()], in each of the three modes and from any
    state of the layer: a second [reset()] changes nothing; afterwards
    the hidden state [outs] is the zero vector, the delay buffer has the
    slots it had, as many as before, and every one of them is the zero
    vector.  (A layer without sample-rate correction has no slots:
    [GRULayerT_ctor_wf] and the lemmas after it.) *)
Theorem C6_GRULayerT_reset_idempotent_zero
    {T : Type} `{Scalar T} (out_sizet : nat)
    (sampleRateCorr : SampleRateCorrectionMode.t) (l : GRULayerT.t T) :
  (sampleRateCorr = SampleRateCorrectionMode.None -> GRULayerT.outs_delayed l = []) ->
  let r := GRULayerT.reset out_sizet sampleRateCorr l in
  GRULayerT.reset out_sizet sampleRateCorr r = r /\
  GRULayerT.outs r = Zero out_sizet /\
  length (GRULayerT.outs_delayed r) = length (GRULayerT.outs_delayed l) /\
  Forall (fun slot => slot = Zero out_sizet) (GRULayerT.outs_delayed r) /\
  (forall i : nat, i < length (GRULayerT.outs_delayed l) ->
     GRULayerT.outs_delayed r !! i = Some (Zero out_sizet)).
Proof.
  intros Hbuf r.
  assert (Hlen : length (GRULayerT.outs_delayed r)
                 = length (GRULayerT.outs_delayed l))
    by apply GRULayerT_reset_buffer_length.
  assert (Hall : Forall (fun slot => slot = Zero out_sizet)
                   (GRULayerT.outs_delayed r)).
  { unfold r, GRULayerT.reset. destruct sampleRateCorr; simpl.
    - rewrite (Hbuf eq_refl). constructor.
    - apply Forall_forall. intros slot Hin.
      apply list_elem_of_In, in_map_iff in Hin. now destruct Hin as (? & <- & _).
    - apply Forall_forall. intros slot Hin.
      apply list_elem_of_In, in_map_iff in Hin. now destruct Hin as (? & <- & _). }
  split; [|split; [reflexivity|split; [exact Hlen|split; [exact Hall|]]]].
  - unfold r, GRULayerT.reset.
    destruct sampleRateCorr; simpl; [reflexivity | |];
      f_equal; rewrite map_map; reflexivity.
  - intros i Hi. rewrite <- Hlen in Hi.
    destruct (lookup_lt_is_Some_2 _ _ Hi) as [slot Hslot].
    rewrite Hslot. f_equal.
    apply (proj1 (Forall_lookup _ _) Hall i slot Hslot).
Qed.

Lemma C6_GRULayerT_reset_idempotent_zero_witness :
  let r := GRULayerT.reset 1 SampleRateCorrectionMode.NoInterp GRUExamples.streaming in
  GRULayerT.reset 1 SampleRateCorrectionMode.NoInterp r = r /\
  GRULayerT.outs r = Zero 1 /\
  length (GRULayerT.outs_delayed r) = length (GRULayerT.outs_delayed GRUExamples.streaming) /\
  Forall (fun slot => slot = Zero 1) (GRULayerT.outs_delayed r) /\
  (forall i : nat, i < length (GRULayerT.outs_delayed GRUExamples.streaming) ->
     GRULayerT.outs_delayed r !! i = Some (Zero 1)).
Proof.
  apply (C6_GRULayerT_reset_idempotent_zero 1 SampleRateCorrectionMode.NoInterp
           GRUExamples.streaming).
  intros Hmode. discriminate Hmode.
Defined.

(** C7.  The appended constant of [extendedInVec] (index [in_size]) and
    of [extendedHt1] (index [out_size]) is [1] after construction, for
    the dynamic and the static layer, and every operation keeps it: the
    weight setters of both layers, the copy constructor, and for the
    static layer [reset], both [prepare] overloads and every [forward]
    step in every mode. *)
Theorem C7_GRU_appended_constant
    {T : Type} `{Scalar T} `{Activations T}
    (in_sizet out_sizet : nat) (sampleRateCorr : SampleRateCorrectionMode.t) :
  (forall in_size out_size : nat,
     GRULayer_ext_ok (GRULayer.ctor in_size out_size : GRULayer.t T)) /\
  (forall (idx0 : Z) (mult0 plus1Mult0 : T),
     GRULayerT_ext_ok in_sizet out_sizet
       (GRULayerT.ctor in_sizet out_sizet sampleRateCorr idx0 mult0 plus1Mult0)) /\
  (forall (l : GRULayer.t T) (vals : list (list T)),
     GRULayer_ext_ok l ->
     GRULayer_ext_ok (GRULayer.setWVals l vals) /\
     GRULayer_ext_ok (GRULayer.setUVals l vals) /\
     GRULayer_ext_ok (GRULayer.setBVals l vals) /\
     GRULayer_ext_ok (GRULayer.copy_ctor l)) /\
  (forall l : GRULayerT.t T,
     GRULayerT_ext_ok in_sizet out_sizet l ->
     GRULayerT_ext_ok in_sizet out_sizet (GRULayerT.reset out_sizet sampleRateCorr l) /\
     (forall delaySamples : Z,
        GRULayerT_ext_ok in_sizet out_sizet
          (GRULayerT.prepare_NoInterp out_sizet sampleRateCorr l delaySamples)) /\
     (forall (Rd : Rounding T) (delaySamples : T),
        GRULayerT_ext_ok in_sizet out_sizet
          (GRULayerT.prepare_LinInterp out_sizet sampleRateCorr l delaySamples)) /\
     (forall vals : list (list T),
        GRULayerT_ext_ok in_sizet out_sizet (GRULayerT.setWVals in_sizet out_sizet l vals) /\
        GRULayerT_ext_ok in_sizet out_sizet (GRULayerT.setUVals out_sizet l vals) /\
        GRULayerT_ext_ok in_sizet out_sizet (GRULayerT.setBVals in_sizet out_sizet l vals)) /\
     (forall ins : list T,
        GRULayerT_ext_ok in_sizet out_sizet
          (GRULayerT.forward in_sizet out_sizet sampleRateCorr l ins))).
Proof.
  split; [intros; apply GRULayer_ctor_ext_ok|].
  split; [intros; apply (GRULayerT_ctor_wf in_sizet out_sizet sampleRateCorr)|].
  split.
  - intros l vals Hok. split; [exact Hok|]. split; [exact Hok|].
    split; [now apply GRULayer_setBVals_ext_ok|].
    apply GRULayer_ctor_ext_ok.
  - intros l Hok.
    split; [exact Hok|]. split; [intros; exact Hok|]. split; [intros; exact Hok|].
    split.
    + intros vals. split; [exact Hok|]. split; [exact Hok|].
      unfold GRULayerT_ext_ok, GRULayerT.setBVals.
      destruct (GRULayerT_setBVals_loop in_sizet out_sizet vals
                  (seq 0 (GRULayerT.out_size out_sizet)) l)
        as (_ & _ & Hx & Hh & _).
      cbv zeta in Hx, Hh. now rewrite Hx, Hh.
    + intros ins. now apply GRULayerT_forward_ext_ok.
Qed.

Lemma C7_GRU_appended_constant_witness :
  GRULayerT_ext_ok 1 1
    (GRULayerT.reset 1 SampleRateCorrectionMode.None GRUExamplesR.unit_candidate_used) /\
  GRULayerT_ext_ok 1 1
    (GRULayerT.forward 1 1 SampleRateCorrectionMode.None
       GRUExamplesR.unit_candidate_used [2%R]).
Proof.
  destruct (C7_GRU_appended_constant (T := R) 1 1 SampleRateCorrectionMode.None)
    as (_ & _ & _ & Hstatic).
  destruct (Hstatic GRUExamplesR.unit_candidate_used) as (Hreset & _ & _ & _ & Hfwd).
  - split; reflexivity.
  - split; [exact Hreset | apply Hfwd].
Defined.

(** ** [memcpy] *)

Section MemoryLaws.
Context {T : Type} `{ObjRepLaws T}.

Lemma encode_all_length (l : list T) :
  length (encode_all l) = length l * sizeofT.
Proof.
  unfold encode_all. induction l as [|x l IH]; simpl; [reflexivity|].
  now rewrite length_app, to_bytes_length, IH.
Qed.

Lemma decode_all_length (k : nat) (bs : list byte) :
  length (decode_all k bs : list T) = k.
Proof. revert bs. induction k as [|k IH]; intros bs; simpl; auto. Qed.

(** An array holds the bytes that were stored in it. *)
Lemma encode_decode_all (k : nat) (bs : list byte) :
  length bs = k * sizeofT -> encode_all (decode_all k bs : list T) = bs.
Proof.
  revert bs. induction k as [|k IH]; intros bs Hlen; simpl in *.
  - now destruct bs.
  - unfold encode_all in *. simpl.
    rewrite to_of_bytes by (rewrite length_take; lia).
    rewrite IH by (rewrite length_skipn; lia).
    apply firstn_skipn.
Qed.

Lemma memcpy_length (dst src : list T) (n : nat) :
  length (memcpy dst src n) = length dst.
Proof. apply decode_all_length. Qed.

(** A second [memcpy] of [n] bytes to the same place hides the first. *)
Lemma memcpy_memcpy (dst h x : list T) (n : nat) :
  n <= length (encode_all h) -> n <= length (encode_all dst) ->
  memcpy (memcpy dst h n) x n = memcpy dst x n.
Proof.
  intros Hh Hd. unfold memcpy at 1 3.
  rewrite memcpy_length. f_equal. f_equal.
  unfold memcpy. rewrite encode_decode_all.
  - rewrite skipn_app, length_take, Nat.min_l by assumption.
    rewrite skipn_all2 by (rewrite length_take; lia).
    now rewrite Nat.sub_diag.
  - rewrite length_app, length_take, length_skipn, Nat.min_l by assumption.
    rewrite <- encode_all_length. lia.
Qed.

End MemoryLaws.

(** The two-byte little-endian representation satisfies the laws. *)
Lemma UInt16_objrep_laws : @ObjRepLaws Z UInt16.objrep.
Proof.
  split.
  - simpl. lia.
  - intros x. reflexivity.
  - intros bs Hlen. simpl in *. rewrite <- Hlen. apply split_le_combine.
Qed.

(** ** Dense, the other revision: [forward] and its history *)

Section Dense2History.
Context {T : Type} `{Scalar T} `{ObjRepLaws T}.
Import DenseRanges2.

Lemma Dense2_forward_fields (d : Dense.t T) (x out : list T) :
  Dense.in_size (fst (Dense.forward d x out)) = Dense.in_size d /\
  Dense.weights (fst (Dense.forward d x out)) = Dense.weights d /\
  length (Dense.inVec (fst (Dense.forward d x out))) = length (Dense.inVec d).
Proof. repeat split. simpl. apply memcpy_length. Qed.

Lemma Dense2_run_cons (d : Dense.t T) (h : list T) (hist : list (list T)) (out' : list T) :
  Dense.run d (h :: hist) out' = Dense.run (fst (Dense.forward d h out')) hist out'.
Proof. reflexivity. Qed.

(** After any sequence of calls, the next [memcpy] into [inVec] leaves
    what it would have left in the layer as it was before them. *)
Lemma Dense2_run_inVec (hist : list (list T)) (d : Dense.t T) (x out' : list T) :
  Forall (fun h => Dense.in_size d <= length h) hist ->
  Dense.in_size d <= length (Dense.inVec d) ->
  Dense.in_size (Dense.run d hist out') = Dense.in_size d /\
  Dense.weights (Dense.run d hist out') = Dense.weights d /\
  memcpy (Dense.inVec (Dense.run d hist out')) x (Dense.in_size d)
    = memcpy (Dense.inVec d) x (Dense.in_size d).
Proof.
  revert d. induction hist as [|h hist IH]; intros d Hhist Hin; [now simpl|].
  apply Forall_cons in Hhist. destruct Hhist as [Hh Hhist].
  destruct (Dense2_forward_fields d h out') as (Hi & Hw & Hl).
  rewrite Dense2_run_cons.
  destruct (IH (fst (Dense.forward d h out'))) as (Hi' & Hw' & Hm').
  - now rewrite Hi.
  - rewrite Hi, Hl. assumption.
  - rewrite Hi', Hw'. rewrite Hi in Hm'. rewrite Hm'.
    repeat split; try assumption.
    simpl. apply memcpy_memcpy; rewrite encode_all_length;
      pose proof sizeofT_pos; nia.
Qed.

End Dense2History.

(** X4.  The other revision stores each bias by index, not by [memcpy]:
    on a layer whose rows have their [in_size + 1] elements, [getBias]
    returns what [setBias] was given. *)
Lemma Dense2_setBias_getBias {T : Type} `{Scalar T}
    (d : DenseRanges2.Dense.t T) (b : list T) (i : nat) (row : list T) :
  i < DenseRanges2.Dense.out_size d ->
  DenseRanges2.Dense.weights d !! i = Some row ->
  DenseRanges2.Dense.in_size d < length row ->
  DenseRanges2.Dense.getBias (DenseRanges2.Dense.setBias d b) i = nth i b szero.
Proof.
  intros Hi Hrow Hlen. unfold DenseRanges2.Dense.getBias, DenseRanges2.Dense.setBias.
  simpl. rewrite (nth_lookup_Some _ i [] (<[DenseRanges2.Dense.in_size d := nth i b szero]> row)).
  - apply nth_lookup_Some. now apply list_lookup_insert_eq.
  - rewrite list_lookup_imap, Hrow. simpl.
    apply Nat.ltb_lt in Hi. now rewrite Hi.
Qed.

Lemma Dense2_setBias_getBias_witness :
  DenseRanges2.Dense.getBias
    (DenseRanges2.Dense.setBias (DenseRanges2.Dense.ctor 2 1) [0.5%float]) 0
  = 0.5%float.
Proof.
  apply (Dense2_setBias_getBias (DenseRanges2.Dense.ctor 2 1) [0.5%float] 0
           [0; 0; 0]%float).
  - simpl. lia.
  - reflexivity.
  - simpl. lia.
Defined.

(** ** GRULayerT: a run after [reset] *)

Section GRULayerTDeterminism.
Context {T : Type} `{Scalar T} `{Activations T}.
Variables in_sizet out_sizet : nat.
Variable sampleRateCorr : SampleRateCorrectionMode.t.
Import GRULayerT.

Lemma skipn_appended {A : Type} (n : nat) (v : list A) (a : A) :
  length v = n + 1 -> v !! n = Some a -> skipn n v = [a].
Proof.
  revert v. induction n as [|n IH]; intros [|b v] Hlen Hlk; simpl in *;
    try discriminate.
  - destruct v; [|discriminate]. now injection Hlk as ->.
  - apply IH; [lia | exact Hlk].
Qed.

Lemma map_const_length {A B : Type} (c : B) (a b : list A) :
  length a = length b -> map (fun _ => c) a = map (fun _ => c) b.
Proof.
  revert b. induction a as [|x a IH]; intros [|y b] Hlen; simpl in *;
    try discriminate; [reflexivity|].
  f_equal. apply IH. lia.
Qed.

(** After [reset()], the kernel on a full input frame leaves two layers
    of the same configuration in the same state, member by member: the
    step overwrites everything that [reset()] did not clear. *)
Lemma GRULayerT_kernel_reset_eq (l1 l2 : t T) (ins : list T) :
  GRULayerT_wf in_sizet out_sizet sampleRateCorr l1 ->
  GRULayerT_wf in_sizet out_sizet sampleRateCorr l2 ->
  GRULayerT_same_config l1 l2 ->
  length ins = in_sizet ->
  kernel in_sizet out_sizet (reset out_sizet sampleRateCorr l1) ins
  = kernel in_sizet out_sizet (reset out_sizet sampleRateCorr l2) ins.
Proof.
  intros ((Hx1 & Hh1) & Lx1 & Lh1 & B1) ((Hx2 & Hh2) & Lx2 & Lh2 & B2)
         (HW & HU & Hidx & Hm & Hp & Hlen) Hins.
  unfold kernel, reset. simpl.
  rewrite !(copy_front_full in_sizet ins) by lia.
  rewrite !(copy_front_full out_sizet (Zero out_sizet))
    by (rewrite ?Zero_length; lia).
  rewrite (skipn_appended in_sizet _ sone Lx1 Hx1),
          (skipn_appended in_sizet _ sone Lx2 Hx2),
          (skipn_appended out_sizet _ sone Lh1 Hh1),
          (skipn_appended out_sizet _ sone Lh2 Hh2).
  rewrite HW, HU, Hidx, Hm, Hp.
  assert (Hbuf :
    (if SampleRateCorrectionMode.eqb sampleRateCorr SampleRateCorrectionMode.None
     then outs_delayed l1 else map (fun _ => Zero out_sizet) (outs_delayed l1))
    = (if SampleRateCorrectionMode.eqb sampleRateCorr SampleRateCorrectionMode.None
       then outs_delayed l2 else map (fun _ => Zero out_sizet) (outs_delayed l2))).
  { destruct sampleRateCorr; simpl.
    - now rewrite B1, B2.
    - now apply map_const_length.
    - now apply map_const_length. }
  now rewrite Hbuf.
Qed.

Lemma GRULayerT_forward_reset_eq (l1 l2 : t T) (ins : list T) :
  GRULayerT_wf in_sizet out_sizet sampleRateCorr l1 ->
  GRULayerT_wf in_sizet out_sizet sampleRateCorr l2 ->
  GRULayerT_same_config l1 l2 ->
  length ins = in_sizet ->
  forward in_sizet out_sizet sampleRateCorr (reset out_sizet sampleRateCorr l1) ins
  = forward in_sizet out_sizet sampleRateCorr (reset out_sizet sampleRateCorr l2) ins.
Proof.
  intros Hwf1 Hwf2 Hcfg Hins. unfold forward.
  now rewrite (GRULayerT_kernel_reset_eq l1 l2 ins).
Qed.

Lemma GRULayerT_outputs_reset_eq (l1 l2 : t T) (inputs : list (list T)) :
  GRULayerT_wf in_sizet out_sizet sampleRateCorr l1 ->
  GRULayerT_wf in_sizet out_sizet sampleRateCorr l2 ->
  GRULayerT_same_config l1 l2 ->
  Forall (fun x => length x = in_sizet) inputs ->
  outputs in_sizet out_sizet sampleRateCorr (reset out_sizet sampleRateCorr l1) inputs
  = outputs in_sizet out_sizet sampleRateCorr (reset out_sizet sampleRateCorr l2) inputs.
Proof.
  intros Hwf1 Hwf2 Hcfg Hin.
  destruct inputs as [|x rest]; [reflexivity|].
  apply Forall_cons in Hin. destruct Hin as [Hx _].
  simpl. now rewrite (GRULayerT_kernel_reset_eq l1 l2 x).
Qed.

End GRULayerTDeterminism.

(** ** GRULayerT: one step of the kernel, unit by unit *)

Section GRUStep.
Context {T : Type} `{Scalar T} `{Activations T}.
Variables in_sizet out_sizet : nat.
Import GRULayerT.

Lemma mat_vec_lookup (m : list (list T)) (v row : list T) (k : nat) :
  m !! k = Some row -> mat_vec m v !! k = Some (dot row v).
Proof. intros Hk. unfold mat_vec. now rewrite list_lookup_fmap, Hk. Qed.

Lemma segment_lookup (v : list T) (start n j : nat) :
  j < n -> segment v start n !! j = v !! (start + j).
Proof.
  intros Hj. unfold segment. now rewrite lookup_take_lt, lookup_drop.
Qed.

Lemma Ones_lookup (n j : nat) : j < n -> (Ones n : list T) !! j = Some sone.
Proof.
  unfold Ones. revert j. induction n as [|n IH]; intros [|j] Hj; simpl;
    try lia; [reflexivity|].
  apply IH. lia.
Qed.

Lemma GRULayerT_kernel_outs (l : t T) (x : list T) (j : nat)
    (wr wz wn ur uz un : list T) (hj : T) :
  j < out_sizet ->
  wCombinedWeights l !! j = Some wr ->
  wCombinedWeights l !! (out_sizet + j) = Some wz ->
  wCombinedWeights l !! (2 * out_sizet + j) = Some wn ->
  uCombinedWeights l !! j = Some ur ->
  uCombinedWeights l !! (out_sizet + j) = Some uz ->
  uCombinedWeights l !! (2 * out_sizet + j) = Some un ->
  outs l !! j = Some hj ->
  let x_hat := copy_front in_sizet x (extendedInVec l) in
  let h_hat := copy_front out_sizet (outs l) (extendedHt1 l) in
  let r := sigmoid (sadd (dot wr x_hat) (dot ur h_hat)) in
  let z := sigmoid (sadd (dot wz x_hat) (dot uz h_hat)) in
  let n := tanh (sadd (dot wn x_hat) (smul r (dot un h_hat))) in
  outs (kernel in_sizet out_sizet l x) !! j
  = Some (sadd (smul (ssub sone z) n) (smul z hj)).
Proof.
  intros Hj Hwr Hwz Hwn Hur Huz Hun Hh x_hat h_hat r z n.
  unfold kernel. cbn [outs].
  fold x_hat. fold h_hat.
  set (alpha := mat_vec (wCombinedWeights l) x_hat).
  set (beta := mat_vec (uCombinedWeights l) h_hat).
  set (gamma := map sigmoid (vadd (segment alpha 0 (2 * out_sizet))
                                  (segment beta 0 (2 * out_sizet)))).
  assert (Ha : forall k row, wCombinedWeights l !! k = Some row ->
                             alpha !! k = Some (dot row x_hat))
    by (intros; now apply mat_vec_lookup).
  assert (Hb : forall k row, uCombinedWeights l !! k = Some row ->
                             beta !! k = Some (dot row h_hat))
    by (intros; now apply mat_vec_lookup).
  assert (Hg : forall k a b, k < 2 * out_sizet ->
             alpha !! k = Some a -> beta !! k = Some b ->
             gamma !! k = Some (sigmoid (sadd a b))).
  { intros k a b Hk Hka Hkb. unfold gamma, vadd.
    rewrite list_lookup_fmap, lookup_zip_with, !segment_lookup by assumption.
    simpl. now rewrite Hka, Hkb. }
  assert (Hr : segment gamma 0 out_sizet !! j = Some r).
  { rewrite segment_lookup by assumption. simpl.
    apply Hg; [lia | now apply Ha | now apply Hb]. }
  assert (Hz : segment gamma out_sizet out_sizet !! j = Some z).
  { rewrite segment_lookup by assumption.
    apply Hg; [lia | now apply Ha | now apply Hb]. }
  unfold vadd, cwiseProduct, vsub.
  rewrite lookup_zip_with, !lookup_zip_with, Ones_lookup by assumption.
  rewrite Hz, Hh. simpl.
  rewrite list_lookup_fmap, lookup_zip_with, lookup_zip_with.
  rewrite !segment_lookup by assumption.
  change (out_sizet + (out_sizet + 0)) with (2 * out_sizet).
  rewrite (Ha _ _ Hwn), (Hb _ _ Hun).
  rewrite segment_lookup in Hr by assumption. rewrite Hr.
  reflexivity.
Qed.

End GRUStep.

(** C2.  One step of the GRU on the input [x] with the persisted hidden
    vector [h] ([outs]), for every unit [j]: with the extended vectors
    [x ++ [1]] and [h ++ [1]] and the rows of [W] and [U] in the block
    order reset, update, candidate,
      [r = sigmoid(r_x + r_h)], [z = sigmoid(z_x + z_h)],
      [n = tanh(n_x + r * n_h)],
    and the new persisted state and output is [(1 - z) * n + z * h[j]].
    The specification's concrete case is
    [C2_GRU_step_witness]. *)
Theorem C2_GRU_step
    {T : Type} `{Scalar T} `{Activations T} (in_sizet out_sizet : nat)
    (l : GRULayerT.t T) (x : list T) (j : nat)
    (wr wz wn ur uz un : list T) (hj : T) :
  GRULayerT_wf in_sizet out_sizet SampleRateCorrectionMode.None l ->
  length x = in_sizet ->
  length (GRULayerT.outs l) = out_sizet ->
  j < out_sizet ->
  GRULayerT.wCombinedWeights l !! j = Some wr ->
  GRULayerT.wCombinedWeights l !! (out_sizet + j) = Some wz ->
  GRULayerT.wCombinedWeights l !! (2 * out_sizet + j) = Some wn ->
  GRULayerT.uCombinedWeights l !! j = Some ur ->
  GRULayerT.uCombinedWeights l !! (out_sizet + j) = Some uz ->
  GRULayerT.uCombinedWeights l !! (2 * out_sizet + j) = Some un ->
  GRULayerT.outs l !! j = Some hj ->
  let x_hat := x ++ [sone] in
  let h_hat := GRULayerT.outs l ++ [sone] in
  let r := sigmoid (sadd (dot wr x_hat) (dot ur h_hat)) in
  let z := sigmoid (sadd (dot wz x_hat) (dot uz h_hat)) in
  let n := tanh (sadd (dot wn x_hat) (smul r (dot un h_hat))) in
  GRULayerT.outs
    (GRULayerT.forward in_sizet out_sizet SampleRateCorrectionMode.None l x) !! j
  = Some (sadd (smul (ssub sone z) n) (smul z hj)).
Proof.
  intros ((Hx1 & Hh1) & Lx & Lh & _) Hx Hh Hj Hwr Hwz Hwn Hur Huz Hun Hhj.
  intros x_hat h_hat r z n.
  unfold GRULayerT.forward, GRULayerT.delay_stage. cbn [fst].
  rewrite (GRULayerT_kernel_outs in_sizet out_sizet l x j wr wz wn ur uz un hj)
    by assumption.
  rewrite (copy_front_full in_sizet x) by lia.
  rewrite (copy_front_full out_sizet (GRULayerT.outs l)) by lia.
  rewrite (skipn_appended in_sizet _ sone Lx Hx1),
          (skipn_appended out_sizet _ sone Lh Hh1).
  reflexivity.
Qed.

(** The concrete case of C2: [out_size = 1], all weights and biases zero
    except the input weight of the candidate row, which is [1]; input
    [1], prior state [0].  One step yields [0.5 * tanh(1)], exactly on
    the reals, hence within [1e-6]. *)
Lemma C2_GRU_step_witness :
  exists h : R,
    GRULayerT.outs
      (GRULayerT.forward 1 1 SampleRateCorrectionMode.None
         GRUExamplesR.unit_candidate [1%R]) !! 0 = Some h /\
    (Rabs (h - 0.5 * Rtrigo_def.tanh 1) <= 1 / 1000000)%R.
Proof.
  eexists. split.
  - apply (C2_GRU_step 1 1 GRUExamplesR.unit_candidate [1%R] 0
             [0; 0]%R [0; 0]%R [1; 0]%R [0; 0]%R [0; 0]%R [0; 0]%R 0%R).
    all: try reflexivity; try lia.
    repeat split.
  - cbn [GRULayerT.outs GRUExamplesR.unit_candidate]. unfold dot. simpl.
    replace (- (0 * 1 + (0 * 1 + 0) + (0 * 0 + (0 * 1 + 0))))%R with 0%R by lra.
    rewrite exp_0.
    replace (1 * 1 + (0 * 1 + 0) + / (1 + 1) * (0 * 0 + (0 * 1 + 0)))%R
      with 1%R by lra.
    replace ((1 - / (1 + 1)) * Rtrigo_def.tanh 1 + / (1 + 1) * 0
             - 0.5 * Rtrigo_def.tanh 1)%R with 0%R by lra.
    rewrite Rabs_R0. lra.
Defined.

(** C8.  Determinism.
    - GRU: two static layers with the same weights and the same delay
      set-up, whatever each has processed before, produce the same
      outputs at every step of the same input sequence once each has
      been [reset()].
    - Dense (dense_ranges.h): the output of [forward] is a function of
      the stored weights, the stored bias and the input.
    - Dense (the other revision, which copies the input into the member
      [inVec]): the output of [forward] after any sequence of earlier
      calls is the output without them. *)
Theorem C8_determinism :
  (forall (T : Type) (S : Scalar T) (A : Activations T)
          (in_sizet out_sizet : nat) (sampleRateCorr : SampleRateCorrectionMode.t)
          (l1 l2 : GRULayerT.t T) (inputs : list (list T)),
     GRULayerT_wf in_sizet out_sizet sampleRateCorr l1 ->
     GRULayerT_wf in_sizet out_sizet sampleRateCorr l2 ->
     GRULayerT_same_config l1 l2 ->
     Forall (fun x => length x = in_sizet) inputs ->
     GRULayerT.outputs in_sizet out_sizet sampleRateCorr
       (GRULayerT.reset out_sizet sampleRateCorr l1) inputs
     = GRULayerT.outputs in_sizet out_sizet sampleRateCorr
         (GRULayerT.reset out_sizet sampleRateCorr l2) inputs) /\
  (forall (T : Type) (S : Scalar T)
          (d1 d2 : DenseRanges.Dense.t T) (input output : list T),
     DenseRanges.Dense.in_size d1 = DenseRanges.Dense.in_size d2 ->
     DenseRanges.Dense.weights d1 = DenseRanges.Dense.weights d2 ->
     DenseRanges.Dense.bias d1 = DenseRanges.Dense.bias d2 ->
     DenseRanges.Dense.forward d1 input output
     = DenseRanges.Dense.forward d2 input output) /\
  (forall (T : Type) (S : Scalar T) (O : ObjRep T) (L : ObjRepLaws T)
          (d : DenseRanges2.Dense.t T) (history : list (list T))
          (input output output' : list T),
     Forall (fun h => DenseRanges2.Dense.in_size d <= length h) history ->
     DenseRanges2.Dense.in_size d <= length (DenseRanges2.Dense.inVec d) ->
     snd (DenseRanges2.Dense.forward
            (DenseRanges2.Dense.run d history output') input output)
     = snd (DenseRanges2.Dense.forward d input output)).
Proof.
  split; [|split].
  - intros. now apply GRULayerT_outputs_reset_eq.
  - intros T S d1 d2 input output Hi Hw Hb.
    unfold DenseRanges.Dense.forward. now rewrite Hi, Hw, Hb.
  - intros T S O L d history input output output' Hhist Hin.
    destruct (Dense2_run_inVec history d input output' Hhist Hin)
      as (Hi & Hw & Hm).
    unfold DenseRanges2.Dense.forward. simpl. now rewrite Hi, Hw, Hm.
Qed.

Lemma C8_determinism_witness :
  GRULayerT.outputs 1 1 SampleRateCorrectionMode.None
    (GRULayerT.reset 1 SampleRateCorrectionMode.None GRUExamplesR.unit_candidate)
    [[1]; [2]]%R
  = GRULayerT.outputs 1 1 SampleRateCorrectionMode.None
      (GRULayerT.reset 1 SampleRateCorrectionMode.None GRUExamplesR.unit_candidate_used)
      [[1]; [2]]%R /\
  DenseRanges.Dense.forward DenseExamples.a [3; 4]%float [0]%float
  = DenseRanges.Dense.forward DenseExamples.b [3; 4]%float [0]%float /\
  snd (@DenseRanges2.Dense.forward Z UInt16.scalar UInt16.objrep
         (@DenseRanges2.Dense.run Z UInt16.scalar UInt16.objrep
            DenseExamples.fresh2 [[258; 772]; [5; 6]]%Z [0%Z])
         [3; 4]%Z [0%Z])
  = snd (@DenseRanges2.Dense.forward Z UInt16.scalar UInt16.objrep
           DenseExamples.fresh2 [3; 4]%Z [0%Z]).
Proof.
  destruct C8_determinism as (Hgru & Hdense & Hdense2).
  split; [|split].
  - apply Hgru.
    + repeat split.
    + repeat split.
    + repeat split.
    + repeat constructor.
  - apply Hdense; reflexivity.
  - apply (Hdense2 Z UInt16.scalar UInt16.objrep UInt16_objrep_laws).
    + repeat constructor.
    + simpl. lia.
Defined.

(* ===================================================================== *)
(** * Further properties of the code *)
(* ===================================================================== *)

(** ** Filling several columns *)

Section FillCols.
Context {T : Type} `{Scalar T}.

Lemma fill_cols_S (f : nat -> nat -> T) (n cols : nat) (m : list (list T)) :
  fill_cols f n (S cols) m = fill_col cols (f cols) n (fill_cols f n cols m).
Proof. unfold fill_cols. now rewrite seq_S, fold_left_app. Qed.

Lemma fill_cols_shape (r c0 : nat) (f : nat -> nat -> T) (n cols : nat)
    (m : list (list T)) :
  mat_shape r c0 m -> mat_shape r c0 (fill_cols f n cols m).
Proof.
  intros Hm. induction cols as [|cols IH]; [exact Hm|].
  rewrite fill_cols_S. now apply fill_col_shape.
Qed.

Lemma fill_cols_get (r c0 : nat) (f : nat -> nat -> T) (n cols : nat)
    (m : list (list T)) (k i : nat) :
  mat_shape r c0 m -> n <= r -> cols <= c0 -> k < n -> i < cols ->
  mat_get (fill_cols f n cols m) k i = f i k.
Proof.
  intros Hm Hn. induction cols as [|cols IH]; intros Hc Hk Hi; [lia|].
  rewrite fill_cols_S.
  destruct (decide (i = cols)) as [->|Hne].
  - apply (fill_col_get r c0); [now apply fill_cols_shape | lia | lia | lia].
  - rewrite fill_col_get_other by (right; exact Hne). apply IH; lia.
Qed.

Lemma fill_cols_get_other (f : nat -> nat -> T) (n cols : nat)
    (m : list (list T)) (k i : nat) :
  n <= k \/ cols <= i ->
  mat_get (fill_cols f n cols m) k i = mat_get m k i.
Proof.
  intros Hki. induction cols as [|cols IH]; [reflexivity|].
  rewrite fill_cols_S.
  rewrite fill_col_get_other by (destruct Hki; [left|right]; lia).
  apply IH. destruct Hki; [left|right]; lia.
Qed.

End FillCols.

(** ** GRULayer (dynamic): what the three setters write and what they keep *)

Section GRULayerSettersMore.
Context {T : Type} `{Scalar T}.
Import GRULayer.

Lemma GRULayer_setWVals_W (l : t T) (wVals : list (list T)) :
  wCombinedWeights (setWVals l wVals)
  = fill_cols (fun i k => mat_get wVals i k) (out_size l * 3) (in_size l)
              (wCombinedWeights l).
Proof. reflexivity. Qed.

Lemma GRULayer_setUVals_U (l : t T) (uVals : list (list T)) :
  uCombinedWeights (setUVals l uVals)
  = fill_cols (fun i k => mat_get uVals i k) (out_size l * 3) (out_size l)
              (uCombinedWeights l).
Proof. reflexivity. Qed.

Lemma GRULayer_setBVals_W (l : t T) (bVals : list (list T)) :
  in_size (setBVals l bVals) = in_size l /\
  out_size (setBVals l bVals) = out_size l /\
  wCombinedWeights (setBVals l bVals)
  = fill_col (in_size l) (fun k => mat_get bVals 0 k) (out_size l * 3)
             (wCombinedWeights l) /\
  uCombinedWeights (setBVals l bVals)
  = fill_col (out_size l) (fun k => mat_get bVals 1 k) (out_size l * 3)
             (uCombinedWeights l).
Proof.
  unfold setBVals.
  destruct (GRULayer_setBVals_loop bVals (seq 0 (out_size l * 3)) l)
    as (Hi & Ho & Hw & Hu & _).
  cbv zeta in Hi, Ho, Hw, Hu. now rewrite Hi, Ho, Hw, Hu.
Qed.

(** X5.  [setWVals] on a layer with its shapes: afterwards [W(k, i)] is
    [wVals[i][k]] for every [i < in_size] and [k < 3 * out_size]. *)
Theorem GRULayer_setWVals_stored (l : t T) (wVals : list (list T)) (i k : nat) :
  GRULayer_shape l -> i < in_size l -> k < 3 * out_size l ->
  mat_get (wCombinedWeights (setWVals l wVals)) k i = mat_get wVals i k.
Proof.
  intros [HW _] Hi Hk. rewrite GRULayer_setWVals_W.
  apply (fill_cols_get (3 * out_size l) (in_size l + 1)
           (fun i k => mat_get wVals i k)); [assumption | lia ..].
Qed.

(** X6.  [setUVals] on a layer with its shapes: afterwards [U(k, i)] is
    [uVals[i][k]] for every [i < out_size] and [k < 3 * out_size]. *)
Theorem GRULayer_setUVals_stored (l : t T) (uVals : list (list T)) (i k : nat) :
  GRULayer_shape l -> i < out_size l -> k < 3 * out_size l ->
  mat_get (uCombinedWeights (setUVals l uVals)) k i = mat_get uVals i k.
Proof.
  intros [_ HU] Hi Hk. rewrite GRULayer_setUVals_U.
  apply (fill_cols_get (3 * out_size l) (out_size l + 1)
           (fun i k => mat_get uVals i k)); [assumption | lia ..].
Qed.

(** X7.  The three setters do not disturb each other, whatever the
    shapes are.  [setWVals] leaves [U] as it is, and of [W] every entry
    in a column from [in_size] on (the bias column) or in a row from
    [3 * out_size] on; [setUVals] leaves [W] as it is, and of [U] every
    entry in a column from [out_size] on or in a row from
    [3 * out_size] on; [setBVals] leaves every entry outside the two
    bias columns.  None of them changes the sizes. *)
Theorem GRULayer_setters_frame (l : t T) (vals : list (list T)) :
  (uCombinedWeights (setWVals l vals) = uCombinedWeights l /\
   forall k i : nat, 3 * out_size l <= k \/ in_size l <= i ->
     mat_get (wCombinedWeights (setWVals l vals)) k i
     = mat_get (wCombinedWeights l) k i) /\
  (wCombinedWeights (setUVals l vals) = wCombinedWeights l /\
   forall k i : nat, 3 * out_size l <= k \/ out_size l <= i ->
     mat_get (uCombinedWeights (setUVals l vals)) k i
     = mat_get (uCombinedWeights l) k i) /\
  ((forall k i : nat, i <> in_size l ->
      mat_get (wCombinedWeights (setBVals l vals)) k i
      = mat_get (wCombinedWeights l) k i) /\
   (forall k i : nat, i <> out_size l ->
      mat_get (uCombinedWeights (setBVals l vals)) k i
      = mat_get (uCombinedWeights l) k i)) /\
  (in_size (setWVals l vals) = in_size l /\
   out_size (setWVals l vals) = out_size l /\
   in_size (setUVals l vals) = in_size l /\
   out_size (setUVals l vals) = out_size l /\
   in_size (setBVals l vals) = in_size l /\
   out_size (setBVals l vals) = out_size l).
Proof.
  destruct (GRULayer_setBVals_W l vals) as (Hi & Ho & HbW & HbU).
  split; [|split; [|split]].
  - split; [reflexivity|]. intros k i Hki. rewrite GRULayer_setWVals_W.
    apply fill_cols_get_other. destruct Hki; [left|right]; lia.
  - split; [reflexivity|]. intros k i Hki. rewrite GRULayer_setUVals_U.
    apply fill_cols_get_other. destruct Hki; [left|right]; lia.
  - split; intros k i Hne.
    + rewrite HbW. apply fill_col_get_other. now right.
    + rewrite HbU. apply fill_col_get_other. now right.
  - repeat split; assumption.
Qed.

(** X8.  The shapes of the combined matrices, [3 * out_size] rows of
    [in_size + 1] resp. [out_size + 1] columns, hold after construction
    and copy construction and are kept by the three setters, whatever the
    shape of the source they are given. *)
Theorem GRULayer_shape_invariant :
  (forall in_size out_size : nat,
     GRULayer_shape (ctor in_size out_size : t T)) /\
  (forall l : t T, GRULayer_shape (copy_ctor l)) /\
  (forall (l : t T) (vals : list (list T)),
     GRULayer_shape l ->
     GRULayer_shape (setWVals l vals) /\
     GRULayer_shape (setUVals l vals) /\
     GRULayer_shape (setBVals l vals)).
Proof.
  assert (Hctor : forall a b : nat, GRULayer_shape (ctor a b : t T))
    by (intros a b; split; apply ZeroM_shape).
  split; [exact Hctor|]. split; [intros l; apply Hctor|].
  intros l vals [HW HU]. split; [|split].
  - split; [|exact HU].
    change (mat_shape (3 * out_size l) (in_size l + 1)
              (wCombinedWeights (setWVals l vals))).
    rewrite GRULayer_setWVals_W. now apply fill_cols_shape.
  - split; [exact HW|].
    change (mat_shape (3 * out_size l) (out_size l + 1)
              (uCombinedWeights (setUVals l vals))).
    rewrite GRULayer_setUVals_U. now apply fill_cols_shape.
  - destruct (GRULayer_setBVals_W l vals) as (Hi & Ho & HbW & HbU).
    unfold GRULayer_shape. rewrite Hi, Ho, HbW, HbU.
    split; now apply fill_col_shape.
Qed.

(** X9.  Loading a layer: after [setWVals], [setUVals] and [setBVals]
    on a layer with its shapes, row [k < 3 * out_size] of [W] holds
    [wVals[0][k], ..., wVals[in_size - 1][k]] and then [bVals[0][k]], and
    row [k] of [U] holds [uVals[0][k], ..., uVals[out_size - 1][k]] and
    then [bVals[1][k]]: no setter has undone the work of another. *)
Theorem GRULayer_load_stored (l : t T) (wVals uVals bVals : list (list T))
    (k : nat) :
  GRULayer_shape l -> k < 3 * out_size l ->
  let l' := setBVals (setUVals (setWVals l wVals) uVals) bVals in
  (forall i : nat, i < in_size l ->
     mat_get (wCombinedWeights l') k i = mat_get wVals i k) /\
  mat_get (wCombinedWeights l') k (in_size l) = mat_get bVals 0 k /\
  (forall i : nat, i < out_size l ->
     mat_get (uCombinedWeights l') k i = mat_get uVals i k) /\
  mat_get (uCombinedWeights l') k (out_size l) = mat_get bVals 1 k.
Proof.
  intros [HW HU] Hk l'. unfold l'. clear l'.
  set (l2 := setUVals (setWVals l wVals) uVals).
  assert (HW2 : wCombinedWeights l2
                = fill_cols (fun i k => mat_get wVals i k) (out_size l * 3)
                            (in_size l) (wCombinedWeights l)) by reflexivity.
  assert (HU2 : uCombinedWeights l2
                = fill_cols (fun i k => mat_get uVals i k) (out_size l * 3)
                            (out_size l) (uCombinedWeights l)) by reflexivity.
  assert (Hin2 : in_size l2 = in_size l) by reflexivity.
  assert (Hout2 : out_size l2 = out_size l) by reflexivity.
  destruct (GRULayer_setBVals_W l2 bVals) as (_ & _ & HbW & HbU).
  rewrite HbW, HbU, Hin2, Hout2, HW2, HU2.
  split; [|split; [|split]].
  - intros i Hi. rewrite fill_col_get_other by (right; lia).
    apply (fill_cols_get (3 * out_size l) (in_size l + 1)
             (fun i k => mat_get wVals i k)); [assumption | lia ..].
  - apply (fill_col_get (3 * out_size l) (in_size l + 1) (in_size l)
             (fun k => mat_get bVals 0 k));
      [now apply fill_cols_shape | lia ..].
  - intros i Hi. rewrite fill_col_get_other by (right; lia).
    apply (fill_cols_get (3 * out_size l) (out_size l + 1)
             (fun i k => mat_get uVals i k)); [assumption | lia ..].
  - apply (fill_col_get (3 * out_size l) (out_size l + 1) (out_size l)
             (fun k => mat_get bVals 1 k));
      [now apply fill_cols_shape | lia ..].
Qed.

End GRULayerSettersMore.

(** ** GRULayerT (static): what the setters write and what they keep *)

Section GRULayerTSettersMore.
Context {T : Type} `{Scalar T}.
Variables in_sizet out_sizet : nat.
Import GRULayerT.

Lemma GRULayerT_setWVals_W (l : t T) (wVals : list (list T)) :
  wCombinedWeights (setWVals in_sizet out_sizet l wVals)
  = fill_cols (fun i k => mat_get wVals i k) (out_sizet * 3) in_sizet
              (wCombinedWeights l).
Proof. reflexivity. Qed.

Lemma GRULayerT_setUVals_U (l : t T) (uVals : list (list T)) :
  uCombinedWeights (setUVals out_sizet l uVals)
  = fill_cols (fun i k => mat_get uVals i k) (out_sizet * 3) out_sizet
              (uCombinedWeights l).
Proof. reflexivity. Qed.

Lemma GRULayerT_setBVals_W (l : t T) (bVals : list (list T)) :
  wCombinedWeights (setBVals in_sizet out_sizet l bVals)
  = fill_col in_sizet (fun k => mat_get bVals 0 k) out_sizet (wCombinedWeights l) /\
  uCombinedWeights (setBVals in_sizet out_sizet l bVals)
  = fill_col out_sizet (fun k => mat_get bVals 1 k) out_sizet (uCombinedWeights l).
Proof.
  unfold setBVals, out_size.
  destruct (GRULayerT_setBVals_loop in_sizet out_sizet bVals (seq 0 out_sizet) l)
    as (Hw & Hu & _).
  split; assumption.
Qed.

(** X10.  The static [setWVals] and [setUVals] on a layer with its
    shapes: afterwards [W(k, i)] is [wVals[i][k]] for [i < in_size],
    resp. [U(k, i)] is [uVals[i][k]] for [i < out_size], for every row
    [k < 3 * out_size]; the bias column of the written matrix and the
    whole other matrix are as before. *)
Theorem GRULayerT_setWVals_setUVals_get (l : t T) (vals : list (list T)) (k : nat) :
  GRULayerT_shape in_sizet out_sizet l -> k < 3 * out_sizet ->
  (forall i, i < in_sizet ->
     mat_get (wCombinedWeights (setWVals in_sizet out_sizet l vals)) k i
     = mat_get vals i k) /\
  (forall i, i < out_sizet ->
     mat_get (uCombinedWeights (setUVals out_sizet l vals)) k i
     = mat_get vals i k) /\
  mat_get (wCombinedWeights (setWVals in_sizet out_sizet l vals)) k in_sizet
    = mat_get (wCombinedWeights l) k in_sizet /\
  mat_get (uCombinedWeights (setUVals out_sizet l vals)) k out_sizet
    = mat_get (uCombinedWeights l) k out_sizet /\
  uCombinedWeights (setWVals in_sizet out_sizet l vals) = uCombinedWeights l /\
  wCombinedWeights (setUVals out_sizet l vals) = wCombinedWeights l.
Proof.
  intros [HW HU] Hk.
  rewrite GRULayerT_setWVals_W, GRULayerT_setUVals_U.
  split; [|split; [|split; [|split; [|split]]]].
  - intros i Hi.
    apply (fill_cols_get (3 * out_sizet) (in_sizet + 1)
             (fun i k => mat_get vals i k)); [assumption | lia ..].
  - intros i Hi.
    apply (fill_cols_get (3 * out_sizet) (out_sizet + 1)
             (fun i k => mat_get vals i k)); [assumption | lia ..].
  - apply fill_cols_get_other. right. lia.
  - apply fill_cols_get_other. right. lia.
  - reflexivity.
  - reflexivity.
Qed.

(** X11.  The static [setBVals] on a layer with its shapes writes the
    reset-gate block: for every row [k < out_size] the bias entry of [W]
    is [bVals[0][k]] and the bias entry of [U] is [bVals[1][k]]; every
    entry outside the two bias columns is as before. *)
Theorem GRULayerT_setBVals_rows_written (l : t T) (bVals : list (list T)) (k : nat) :
  GRULayerT_shape in_sizet out_sizet l -> k < out_sizet ->
  mat_get (wCombinedWeights (setBVals in_sizet out_sizet l bVals)) k in_sizet
    = mat_get bVals 0 k /\
  mat_get (uCombinedWeights (setBVals in_sizet out_sizet l bVals)) k out_sizet
    = mat_get bVals 1 k /\
  (forall k' i, i <> in_sizet ->
     mat_get (wCombinedWeights (setBVals in_sizet out_sizet l bVals)) k' i
     = mat_get (wCombinedWeights l) k' i) /\
  (forall k' i, i <> out_sizet ->
     mat_get (uCombinedWeights (setBVals in_sizet out_sizet l bVals)) k' i
     = mat_get (uCombinedWeights l) k' i).
Proof.
  intros [HW HU] Hk.
  destruct (GRULayerT_setBVals_W l bVals) as (Hw & Hu). rewrite Hw, Hu.
  split; [|split; [|split]].
  - apply (fill_col_get (3 * out_sizet) (in_sizet + 1) in_sizet
             (fun k => mat_get bVals 0 k)); [assumption | lia ..].
  - apply (fill_col_get (3 * out_sizet) (out_sizet + 1) out_sizet
             (fun k => mat_get bVals 1 k)); [assumption | lia ..].
  - intros k' i Hi. apply fill_col_get_other. now right.
  - intros k' i Hi. apply fill_col_get_other. now right.
Qed.

End GRULayerTSettersMore.

Section GRULayerTShape.
Context {T : Type} `{Scalar T}.
Variables in_sizet out_sizet : nat.
Variable sampleRateCorr : SampleRateCorrectionMode.t.
Import GRULayerT.

(** X12.  The shapes of the combined matrices of the static layer hold
    after construction and are kept by [reset], by both [prepare]
    overloads and by the three setters, whatever the shape of the source
    a setter is given. *)
Theorem GRULayerT_shape_invariant :
  (forall (idx0 : Z) (mult0 plus1Mult0 : T),
     GRULayerT_shape in_sizet out_sizet
       (ctor in_sizet out_sizet sampleRateCorr idx0 mult0 plus1Mult0)) /\
  (forall l : t T,
     GRULayerT_shape in_sizet out_sizet l ->
     GRULayerT_shape in_sizet out_sizet (reset out_sizet sampleRateCorr l) /\
     (forall delaySamples : Z,
        GRULayerT_shape in_sizet out_sizet
          (prepare_NoInterp out_sizet sampleRateCorr l delaySamples)) /\
     (forall (Rd : Rounding T) (delaySamples : T),
        GRULayerT_shape in_sizet out_sizet
          (prepare_LinInterp out_sizet sampleRateCorr l delaySamples)) /\
     (forall vals : list (list T),
        GRULayerT_shape in_sizet out_sizet (setWVals in_sizet out_sizet l vals) /\
        GRULayerT_shape in_sizet out_sizet (setUVals out_sizet l vals) /\
        GRULayerT_shape in_sizet out_sizet (setBVals in_sizet out_sizet l vals))).
Proof.
  split.
  - intros. split; apply ZeroM_shape.
  - intros l [HW HU].
    split; [split; assumption|]. split; [intros; split; assumption|].
    split; [intros; split; assumption|].
    intros vals. split; [|split].
    + split; [|exact HU].
      rewrite GRULayerT_setWVals_W. now apply fill_cols_shape.
    + split; [exact HW|].
      rewrite GRULayerT_setUVals_U. now apply fill_cols_shape.
    + destruct (GRULayerT_setBVals_W in_sizet out_sizet l vals) as (Hw & Hu).
      unfold GRULayerT_shape. rewrite Hw, Hu. split; now apply fill_col_shape.
Qed.

End GRULayerTShape.

(** ** GRULayerT: [prepare] *)

Section GRULayerTPrepare.
Context {T : Type} `{Scalar T}.
Variable out_sizet : nat.
Import GRULayerT.

Lemma map_const_repeat {A B : Type} (c : B) (l : list A) :
  map (fun _ => c) l = repeat c (length l).
Proof. induction l as [|x l IH]; simpl; [reflexivity|]. now rewrite IH. Qed.

Lemma GRULayerT_reset_buffer (mode : SampleRateCorrectionMode.t) (l : t T) :
  mode <> SampleRateCorrectionMode.None ->
  outs_delayed (reset out_sizet mode l)
  = repeat (Zero out_sizet) (length (outs_delayed l)).
Proof.
  intros Hmode. unfold reset. cbn [outs_delayed].
  destruct mode; [congruence | apply map_const_repeat ..].
Qed.

(** What [prepare(int)] leaves, member by member. *)
Lemma GRULayerT_prepare_NoInterp_normal (l : t T) (delaySamples : Z) :
  prepare_NoInterp out_sizet SampleRateCorrectionMode.NoInterp l delaySamples
  = {| outs := Zero out_sizet;
       outs_delayed := repeat (Zero out_sizet) (Z.to_nat (delaySamples - 1 + 1));
       delayWriteIdx := (delaySamples - 1)%Z;
       delayMult := delayMult l;
       delayPlus1Mult := delayPlus1Mult l;
       wCombinedWeights := wCombinedWeights l;
       uCombinedWeights := uCombinedWeights l;
       alphaVec := alphaVec l; betaVec := betaVec l;
       gammaVec := gammaVec l; cVec := cVec l;
       extendedInVec := extendedInVec l;
       extendedHt1 := extendedHt1 l |}.
Proof.
  unfold prepare_NoInterp, reset.
  cbn [outs_delayed with_delay delayWriteIdx delayMult delayPlus1Mult
       wCombinedWeights uCombinedWeights alphaVec betaVec gammaVec cVec
       extendedInVec extendedHt1 SampleRateCorrectionMode.eqb].
  now rewrite map_const_repeat, GRULayerT_resize_length.
Qed.


(** X13.  [prepare(int delaySamples)] of the integer-delay layer, for
    [delaySamples >= 0]: afterwards the hidden state is zero, the delay
    buffer is [delaySamples] zero vectors, the write index is
    [delaySamples - 1], and nothing of an earlier [prepare] is left:
    preparing twice is preparing with the last value. *)
Theorem GRULayerT_prepare_NoInterp_state (l : t T) (delaySamples earlier : Z) :
  (0 <= delaySamples)%Z -> (0 <= earlier)%Z ->
  let p := prepare_NoInterp out_sizet SampleRateCorrectionMode.NoInterp l delaySamples in
  outs p = Zero out_sizet /\
  outs_delayed p = repeat (Zero out_sizet) (Z.to_nat delaySamples) /\
  delayWriteIdx p = (delaySamples - 1)%Z /\
  prepare_NoInterp out_sizet SampleRateCorrectionMode.NoInterp
    (prepare_NoInterp out_sizet SampleRateCorrectionMode.NoInterp l earlier)
    delaySamples = p.
Proof.
  intros Hn He p. unfold p.
  rewrite !(GRULayerT_prepare_NoInterp_normal _ delaySamples).
  rewrite (GRULayerT_prepare_NoInterp_normal l earlier).
  cbn [outs outs_delayed delayWriteIdx delayMult delayPlus1Mult
       wCombinedWeights uCombinedWeights alphaVec betaVec gammaVec cVec
       extendedInVec extendedHt1].
  replace (delaySamples - 1 + 1)%Z with delaySamples by lia.
  repeat split.
Qed.


End GRULayerTPrepare.

(** X15.  [prepare(T delaySamples)] on exact rationals, for
    [0 <= delaySamples < INT_MAX] (so that the conversions to [int] are
    defined and [delayWriteIdx + 1] does not overflow): the two
    interpolation weights are in [[0, 1]] and add up to [1]
    ([delayPlus1Mult] is the fractional part of the delay and is below
    [1]), the write index is the whole part, write index plus
    [delayPlus1Mult] is the delay, and the converted values and the
    buffer size lie in the range of [int]. *)
Theorem GRULayerT_prepare_LinInterp_weights
    (out_sizet : nat) (l : GRULayerT.t Q) (delaySamples : Q) :
  (0 <= delaySamples)%Q -> (delaySamples < inject_Z INT_MAX)%Q ->
  let p := GRULayerT.prepare_LinInterp out_sizet SampleRateCorrectionMode.LinInterp
             l delaySamples in
  (GRULayerT.delayMult p + GRULayerT.delayPlus1Mult p == 1)%Q /\
  (0 <= GRULayerT.delayPlus1Mult p)%Q /\ (GRULayerT.delayPlus1Mult p < 1)%Q /\
  (0 < GRULayerT.delayMult p)%Q /\ (GRULayerT.delayMult p <= 1)%Q /\
  GRULayerT.delayWriteIdx p = Qfloor delaySamples /\
  (0 <= GRULayerT.delayWriteIdx p)%Z /\
  (inject_Z (GRULayerT.delayWriteIdx p) + GRULayerT.delayPlus1Mult p == delaySamples)%Q /\
  int_range (Qceiling delaySamples) /\
  int_range (Qceiling (delaySamples - inject_Z (Qfloor delaySamples))) /\
  int_range (GRULayerT.delayWriteIdx p + 1).
Proof.
  intros Hd Hmax p.
  pose proof (Qfloor_le delaySamples) as Hf1.
  pose proof (Qlt_floor delaySamples) as Hf2.
  assert (Hf3 : (inject_Z (Qfloor delaySamples + 1)
                 == inject_Z (Qfloor delaySamples) + 1)%Q)
    by (rewrite inject_Z_plus; reflexivity).
  rewrite Hf3 in Hf2.
  assert (Hidx : GRULayerT.delayWriteIdx p = Qfloor delaySamples).
  { unfold p, GRULayerT.prepare_LinInterp.
    cbn [GRULayerT.delayWriteIdx GRULayerT.reset GRULayerT.with_delay].
    cbn [sceil sfloor ssub Rat.rounding Rat.scalar].
    rewrite !Rat_to_int_inject_Z, Qceiling_minus_Z. lia. }
  assert (Hplus : GRULayerT.delayPlus1Mult p
                  = (delaySamples - inject_Z (Qfloor delaySamples))%Q) by reflexivity.
  assert (Hmult : GRULayerT.delayMult p
                  = (1 - (delaySamples - inject_Z (Qfloor delaySamples)))%Q)
    by reflexivity.
  assert (H0 : (0 <= Qfloor delaySamples)%Z).
  { change 0%Z with (Qfloor 0). now apply Qfloor_resp_le. }
  assert (Hfl : (Qfloor delaySamples < INT_MAX)%Z).
  { apply Z.lt_nge. intros Hge.
    apply (Qlt_not_le _ _ Hmax).
    apply Qle_trans with (inject_Z (Qfloor delaySamples)); [|exact Hf1].
    rewrite <- Zle_Qle. exact Hge. }
  destruct (Qceiling_floor delaySamples) as [Hwhole Hpart].
  assert (Hceil : (Qfloor delaySamples <= Qceiling delaySamples
                   <= Qfloor delaySamples + 1)%Z).
  { destruct (Qeq_dec delaySamples (inject_Z (Qfloor delaySamples)))
      as [He | Hne].
    - rewrite (Hwhole He). lia.
    - rewrite (Hpart Hne). lia. }
  rewrite Hidx, Hplus, Hmult, Qceiling_minus_Z.
  unfold int_range, INT_MIN, INT_MAX in *.
  repeat split; try lra; lia.
Qed.

(** ** GRULayerT: the modelled delay stage against section 8 *)

Section GRULayerTDelay.
Context {T : Type} `{Scalar T} `{Activations T}.
Variables in_sizet out_sizet : nat.
Import GRULayerT.

(** The kernel reads neither the delay buffer nor the delay set-up. *)
Lemma GRULayerT_kernel_with_delay (l : t T) (idx : Z) (m p : T)
    (buf : list (list T)) (x : list T) :
  kernel in_sizet out_sizet (with_delay l idx m p buf) x
  = with_delay (kernel in_sizet out_sizet l x) idx m p buf.
Proof. reflexivity. Qed.

Lemma GRULayerT_outputs_None_with_delay (l : t T) (idx : Z) (m p : T)
    (buf : list (list T)) (inputs : list (list T)) :
  outputs in_sizet out_sizet SampleRateCorrectionMode.None
    (with_delay l idx m p buf) inputs
  = outputs in_sizet out_sizet SampleRateCorrectionMode.None l inputs.
Proof.
  revert l. induction inputs as [|x rest IH]; intros l; [reflexivity|].
  cbn [outputs delay_stage fst snd].
  rewrite GRULayerT_kernel_with_delay, IH. reflexivity.
Qed.

Lemma delay_line_step {A : Type} (h : A) (buf R : list A) (n : nat) :
  List.last (h :: buf) h
    :: firstn n (rev (firstn (length buf) (h :: buf)) ++ R)
  = firstn (S n) (rev buf ++ h :: R).
Proof.
  induction buf as [|o b _] using rev_ind; [reflexivity|].
  rewrite app_comm_cons, last_last, length_app, Nat.add_1_r.
  change (S (length b)) with (length (h :: b)).
  rewrite (firstn_app (length (h :: b)) (h :: b) [o]).
  rewrite firstn_all, Nat.sub_diag, firstn_O, app_nil_r.
  rewrite rev_app_distr. cbn [rev app firstn].
  now rewrite <- app_assoc.
Qed.

(** The integer delay line, from any content of the buffer: the outputs
    are what the buffer held, oldest first, followed by the outputs of
    the kernel without the delay stage. *)
Lemma GRULayerT_integer_delay_line (l : t T) (inputs : list (list T)) :
  outputs in_sizet out_sizet SampleRateCorrectionMode.NoInterp l inputs
  = firstn (length inputs)
      (rev (outs_delayed l)
       ++ outputs in_sizet out_sizet SampleRateCorrectionMode.None l inputs).
Proof.
  revert l. induction inputs as [|x rest IH]; intros l; [reflexivity|].
  cbn [outputs delay_stage fst snd length].
  rewrite IH. cbn [outs_delayed with_delay].
  rewrite GRULayerT_outputs_None_with_delay.
  apply delay_line_step.
Qed.

(** The integer delay property of section 8 holds of the modelled
    stage: after [prepare(N)], [N >= 0], the value returned at step [t]
    is the kernel output of step [t - N], and zero for [t < N]. *)
Lemma GRULayerT_integer_delay (l : t T) (N : Z) (inputs : list (list T)) :
  (0 <= N)%Z ->
  let p := prepare_NoInterp out_sizet SampleRateCorrectionMode.NoInterp l N in
  outputs in_sizet out_sizet SampleRateCorrectionMode.NoInterp p inputs
  = firstn (length inputs)
      (repeat (Zero out_sizet) (Z.to_nat N)
       ++ outputs in_sizet out_sizet SampleRateCorrectionMode.None p inputs).
Proof.
  intros HN p. rewrite GRULayerT_integer_delay_line.
  unfold p at 1. rewrite GRULayerT_prepare_NoInterp_normal.
  cbn [outs_delayed].
  replace (N - 1 + 1)%Z with N by lia.
  f_equal. f_equal.
  generalize (Z.to_nat N). intros n.
  induction n as [|n IHn]; [reflexivity|].
  cbn [repeat rev]. rewrite IHn.
  clear IHn. induction n as [|n IHn]; [reflexivity|].
  cbn [repeat app]. now rewrite IHn.
Qed.

End GRULayerTDelay.

(** ** Dense: what [forward] reads and writes *)

Section DenseForwardFrame.
Context {T : Type} `{Scalar T}.
Import DenseRanges.

(** X16.  [Dense::forward] of dense_ranges.h reads the first [in_size]
    elements of the input and nothing behind them; it writes one value
    per pair of a weight row and a bias, and leaves the rest of the
    caller's buffer, and its length, as they were. *)
Theorem Dense_forward_frame (d : Dense.t T) (input input' output : list T) :
  let m := Nat.min (length (Dense.weights d)) (length (Dense.bias d)) in
  m <= length output ->
  firstn (Dense.in_size d) input = firstn (Dense.in_size d) input' ->
  Dense.forward d input output = Dense.forward d input' output /\
  length (Dense.forward d input output) = length output /\
  skipn m (Dense.forward d input output) = skipn m output.
Proof.
  intros m Hm Hin. unfold Dense.forward. rewrite Hin.
  set (res := map _ (combine (Dense.weights d) (Dense.bias d))).
  assert (Hres : length res = m)
    by (unfold res; now rewrite length_map, length_combine).
  split; [reflexivity|]. split.
  - apply write_front_length. lia.
  - unfold write_front. rewrite Hres.
    rewrite skipn_app, Hres, Nat.sub_diag, skipn_O.
    now rewrite skipn_all2 by lia.
Qed.

End DenseForwardFrame.

(** ** [memcpy], element by element *)

Section MemoryValueLaws.
Context {T : Type} `{ObjRepLaws T} `{!ObjRepValueLaws T}.

(** The bytes of element [i] of an array. *)
Lemma encode_all_chunk (l : list T) (i : nat) (x : T) :
  l !! i = Some x ->
  firstn sizeofT (skipn (i * sizeofT) (encode_all l)) = to_bytes x.
Proof.
  revert i. unfold encode_all.
  induction l as [|y l IH]; intros [|i] Hi; simpl in *; try discriminate.
  - injection Hi as ->.
    rewrite skipn_O, firstn_app, to_bytes_length, Nat.sub_diag, firstn_O, app_nil_r.
    apply firstn_all2. rewrite to_bytes_length. lia.
  - rewrite skipn_app, to_bytes_length.
    rewrite skipn_all2 by (rewrite to_bytes_length; lia).
    replace (sizeofT + i * sizeofT - sizeofT) with (i * sizeofT) by lia.
    now apply IH.
Qed.

(** Element [i] of what a block of bytes holds. *)
Lemma decode_all_lookup (k : nat) (bs : list byte) (i : nat) :
  i < k ->
  (decode_all k bs : list T) !! i
  = Some (of_bytes (firstn sizeofT (skipn (i * sizeofT) bs))).
Proof.
  revert bs i. induction k as [|k IH]; intros bs [|i] Hi; simpl; try lia.
  - reflexivity.
  - rewrite IH by lia. rewrite skipn_skipn.
    now replace (i * sizeofT + sizeofT) with (sizeofT + i * sizeofT) by lia.
Qed.

(** An element that lies behind the copied bytes keeps its value. *)
Lemma memcpy_lookup_untouched (dst src : list T) (n i : nat) (x : T) :
  n <= length (encode_all src) -> n <= i * sizeofT ->
  dst !! i = Some x -> memcpy dst src n !! i = Some x.
Proof.
  intros Hsrc Hn Hx. unfold memcpy.
  rewrite decode_all_lookup by (now apply lookup_lt_Some in Hx).
  f_equal. rewrite <- (of_to_bytes x). f_equal.
  rewrite <- (encode_all_chunk dst i x Hx).
  rewrite skipn_app, length_take, Nat.min_l by assumption.
  rewrite skipn_all2 by (rewrite length_take; lia).
  rewrite skipn_skipn. simpl.
  now replace (i * sizeofT - n + n) with (i * sizeofT) by lia.
Qed.

(** An element that lies within the copied bytes takes the value of the
    source. *)
Lemma memcpy_lookup_copied (dst src : list T) (n i : nat) (x : T) :
  (i + 1) * sizeofT <= n -> i < length dst ->
  src !! i = Some x -> memcpy dst src n !! i = Some x.
Proof.
  intros Hn Hi Hx. unfold memcpy.
  rewrite decode_all_lookup by assumption.
  f_equal. rewrite <- (of_to_bytes x). f_equal.
  rewrite <- (encode_all_chunk src i x Hx).
  assert (Hlen : (i + 1) * sizeofT <= length (encode_all src)).
  { rewrite encode_all_length. apply lookup_lt_Some in Hx. nia. }
  rewrite skipn_app, length_take.
  replace (i * sizeofT - Nat.min n (length (encode_all src))) with 0 by lia.
  rewrite skipn_O, firstn_app, length_skipn, length_take.
  replace (sizeofT - (Nat.min n (length (encode_all src)) - i * sizeofT))
    with 0 by lia.
  rewrite firstn_O, app_nil_r, skipn_firstn_comm, firstn_firstn.
  f_equal. lia.
Qed.

(** With the byte count of [k] whole elements, [memcpy] copies [k]
    elements. *)
Lemma memcpy_elements (dst src : list T) (k : nat) :
  k <= length src -> k <= length dst ->
  memcpy dst src (k * sizeofT) = firstn k src ++ skipn k dst.
Proof.
  intros Hs Hd. apply list_eq. intros i.
  destruct (decide (i < length dst)) as [Hi|Hi].
  - destruct (decide (i < k)) as [Hk|Hk].
    + destruct (lookup_lt_is_Some_2 src i ltac:(lia)) as [x Hx].
      rewrite (memcpy_lookup_copied dst src _ i x) by (assumption || nia).
      rewrite lookup_app_l by (rewrite length_take; lia).
      now rewrite lookup_take_lt.
    + destruct (lookup_lt_is_Some_2 dst i Hi) as [x Hx].
      rewrite (memcpy_lookup_untouched dst src _ i x)
        by (assumption || rewrite ?encode_all_length; nia).
      rewrite lookup_app_r by (rewrite length_take; lia).
      rewrite length_take, lookup_drop, Nat.min_l by lia.
      now replace (k + (i - k)) with i by lia.
  - rewrite !lookup_ge_None_2; [reflexivity | |].
    + rewrite length_app, length_take, length_skipn. lia.
    + rewrite memcpy_length. lia.
Qed.

End MemoryValueLaws.

Lemma UInt8_objrep_laws : @ObjRepLaws byte UInt8.objrep.
Proof.
  split.
  - simpl. lia.
  - reflexivity.
  - intros [|b [|c bs]] Hlen; simpl in *; try discriminate. reflexivity.
Qed.

Lemma UInt8_value_laws : @ObjRepValueLaws byte UInt8.objrep.
Proof. split. reflexivity. Qed.

Lemma UInt16le_objrep_laws : @ObjRepLaws (byte * byte) UInt16le.objrep.
Proof.
  split.
  - simpl. lia.
  - reflexivity.
  - intros [|b [|c [|e bs]]] Hlen; simpl in *; try discriminate. reflexivity.
Qed.

Lemma UInt16le_value_laws : @ObjRepValueLaws (byte * byte) UInt16le.objrep.
Proof. split. intros [a b]. reflexivity. Qed.

(** ** Dense: the setters that call [memcpy] *)

Section DenseMemcpySetters.
Context {T : Type} `{Scalar T} `{ObjRepLaws T} `{!ObjRepValueLaws T}.

Lemma nth_lookup_eq (l : list T) (i : nat) (x : T) :
  l !! i = Some x -> nth i l szero = x.
Proof. apply nth_lookup_Some. Qed.

(** X17.  [Dense::setBias] of dense_ranges.h passes [out_size] to
    [memcpy] as the number of BYTES.  So a bias value whose bytes all lie
    within the first [out_size] bytes is replaced by the new one, a bias
    value whose bytes all lie behind them keeps its old value, and the
    setter stores all [out_size] values exactly when [T] has one byte. *)
Theorem Dense_setBias_elements (d : DenseRanges.Dense.t T) (b : list T) (i : nat) :
  DenseRanges.Dense.out_size d <= length b ->
  i < length (DenseRanges.Dense.bias d) ->
  ((i + 1) * sizeofT <= DenseRanges.Dense.out_size d ->
   DenseRanges.Dense.getBias (DenseRanges.Dense.setBias d b) i = nth i b szero) /\
  (DenseRanges.Dense.out_size d <= i * sizeofT ->
   DenseRanges.Dense.getBias (DenseRanges.Dense.setBias d b) i
   = DenseRanges.Dense.getBias d i) /\
  (sizeofT = 1 -> i < DenseRanges.Dense.out_size d ->
   DenseRanges.Dense.getBias (DenseRanges.Dense.setBias d b) i = nth i b szero).
Proof.
  intros Hb Hi. pose proof sizeofT_pos as Hsz.
  unfold DenseRanges.Dense.getBias, DenseRanges.Dense.setBias.
  cbn [DenseRanges.Dense.bias].
  assert (Hcopied : (i + 1) * sizeofT <= DenseRanges.Dense.out_size d ->
            nth i (memcpy (DenseRanges.Dense.bias d) b (DenseRanges.Dense.out_size d)) szero
            = nth i b szero).
  { intros Hn.
    destruct (lookup_lt_is_Some_2 b i ltac:(nia)) as [x Hx].
    rewrite (nth_lookup_eq b i x Hx).
    apply nth_lookup_eq. now apply memcpy_lookup_copied. }
  split; [exact Hcopied|]. split.
  - intros Hn.
    destruct (lookup_lt_is_Some_2 (DenseRanges.Dense.bias d) i Hi) as [x Hx].
    rewrite (nth_lookup_eq (DenseRanges.Dense.bias d) i x Hx).
    apply nth_lookup_eq. apply memcpy_lookup_untouched; try assumption.
    rewrite encode_all_length. nia.
  - intros Hone Hout. apply Hcopied. rewrite Hone. lia.
Qed.

(** X18.  The pointer overload of [Dense::setWeights] (the same loop in both revisions of
    the header) passes [in_size] to [memcpy] as the number of BYTES per
    row.  In a row [i < out_size], a weight whose bytes all lie within
    the first [in_size] bytes is replaced, a weight whose bytes all lie
    behind them keeps its old value, and the row is stored completely
    exactly when [T] has one byte. *)
Theorem Dense_setWeights_ptr_elements
    (d : DenseRanges.Dense.t T) (newWeights : list (list T))
    (i k : nat) (row src : list T) :
  DenseRanges.Dense.weights d !! i = Some row ->
  newWeights !! i = Some src ->
  i < DenseRanges.Dense.out_size d ->
  DenseRanges.Dense.in_size d <= length src ->
  k < length row ->
  ((k + 1) * sizeofT <= DenseRanges.Dense.in_size d ->
   DenseRanges.Dense.getWeight (DenseRanges.Dense.setWeights_ptr d newWeights) i k
   = nth k src szero) /\
  (DenseRanges.Dense.in_size d <= k * sizeofT ->
   DenseRanges.Dense.getWeight (DenseRanges.Dense.setWeights_ptr d newWeights) i k
   = DenseRanges.Dense.getWeight d i k) /\
  (sizeofT = 1 -> k < DenseRanges.Dense.in_size d ->
   DenseRanges.Dense.getWeight (DenseRanges.Dense.setWeights_ptr d newWeights) i k
   = nth k src szero).
Proof.
  intros Hrow Hsrc Hi Hlen Hk. pose proof sizeofT_pos as Hsz.
  unfold DenseRanges.Dense.getWeight, DenseRanges.Dense.setWeights_ptr.
  cbn [DenseRanges.Dense.weights].
  assert (Hnew : nth i (imap (fun i0 w =>
                   if i0 <? DenseRanges.Dense.out_size d
                   then memcpy w (nth i0 newWeights []) (DenseRanges.Dense.in_size d)
                   else w) (DenseRanges.Dense.weights d)) []
                 = memcpy row src (DenseRanges.Dense.in_size d)).
  { apply nth_lookup_Some. rewrite list_lookup_imap, Hrow. simpl.
    apply Nat.ltb_lt in Hi. rewrite Hi.
    now rewrite (nth_lookup_Some newWeights i [] src Hsrc). }
  rewrite Hnew, (nth_lookup_Some _ i [] row Hrow).
  assert (Hcopied : (k + 1) * sizeofT <= DenseRanges.Dense.in_size d ->
            nth k (memcpy row src (DenseRanges.Dense.in_size d)) szero
            = nth k src szero).
  { intros Hn.
    destruct (lookup_lt_is_Some_2 src k ltac:(nia)) as [x Hx].
    rewrite (nth_lookup_eq src k x Hx).
    apply nth_lookup_eq. now apply memcpy_lookup_copied. }
  split; [exact Hcopied|]. split.
  - intros Hn.
    destruct (lookup_lt_is_Some_2 row k Hk) as [x Hx].
    rewrite (nth_lookup_eq row k x Hx).
    apply nth_lookup_eq. apply memcpy_lookup_untouched; try assumption.
    rewrite encode_all_length. nia.
  - intros Hone Hin. apply Hcopied. rewrite Hone. lia.
Qed.

End DenseMemcpySetters.

(** ** Dense, the other revision: setters and [forward] *)

Section Dense2Setters.
Context {T : Type} `{Scalar T}.
Import DenseRanges2.

Lemma copy_front_all {A : Type} (src dst : list A) :
  length src <= length dst ->
  copy_front (length src) src dst = src ++ skipn (length src) dst.
Proof. intros Hlen. now apply copy_front_full. Qed.

Lemma copy_front_iter {A : Type} (n : nat) (src dst : list A) :
  length src <= length dst -> 0 < n ->
  Nat.iter n (copy_front (length src) src) dst = src ++ skipn (length src) dst.
Proof.
  intros Hlen Hn. destruct n as [|n]; [lia|]. clear Hn.
  induction n as [|n IH].
  - simpl. now apply copy_front_all.
  - change (Nat.iter (S (S n)) (copy_front (length src) src) dst)
      with (copy_front (length src) src
              (Nat.iter (S n) (copy_front (length src) src) dst)).
    rewrite IH, copy_front_all.
    + now rewrite skipn_app, Nat.sub_diag, skipn_O, skipn_all2, app_nil_l by lia.
    + rewrite length_app. lia.
Qed.

(** X19.  [Dense::setWeights] with a vector of rows, in the revision
    that keeps the bias inside each row: with [out_size = 0] nothing is
    copied; otherwise row [i] of the layer BECOMES [newWeights[i]], with
    its length, for every row of [newWeights], and the rows behind them
    stay.  So [getWeight(i, k)] returns [newWeights[i][k]] for [k] within
    the row; [getBias(i)] returns [newWeights[i][in_size]] where the
    source row has that element; and after a source row of [in_size]
    elements, the documented shape, the stored row has no element at
    index [in_size]: the bias that was there is not part of the row any
    more. *)
Theorem Dense2_setWeights_rows (d : Dense.t T) (newWeights : list (list T)) :
  length newWeights <= length (Dense.weights d) ->
  (Dense.out_size d = 0 ->
   Dense.weights (Dense.setWeights d newWeights) = Dense.weights d) /\
  (0 < Dense.out_size d ->
   Dense.weights (Dense.setWeights d newWeights)
   = newWeights ++ skipn (length newWeights) (Dense.weights d)) /\
  (0 < Dense.out_size d -> forall (i : nat) (src : list T),
   newWeights !! i = Some src ->
   Dense.weights (Dense.setWeights d newWeights) !! i = Some src /\
   (forall k : nat, k < length src ->
      Dense.getWeight (Dense.setWeights d newWeights) i k = nth k src szero) /\
   (Dense.in_size d < length src ->
      Dense.getBias (Dense.setWeights d newWeights) i
      = nth (Dense.in_size d) src szero) /\
   (length src = Dense.in_size d ->
      nth i (Dense.weights (Dense.setWeights d newWeights)) []
        !! Dense.in_size d = None)).
Proof.
  intros Hlen.
  split; [intros Hz; unfold Dense.setWeights; cbn [Dense.weights];
          rewrite Hz; reflexivity|].
  assert (Hrows : 0 < Dense.out_size d ->
            Dense.weights (Dense.setWeights d newWeights)
            = newWeights ++ skipn (length newWeights) (Dense.weights d)).
  { intros Hout. unfold Dense.setWeights. cbn [Dense.weights].
    now apply copy_front_iter. }
  split; [exact Hrows|].
  intros Hout i src Hsrc.
  assert (Hrow : Dense.weights (Dense.setWeights d newWeights) !! i = Some src).
  { rewrite (Hrows Hout), lookup_app_l by (eapply lookup_lt_Some; eassumption).
    exact Hsrc. }
  assert (Hnth : nth i (Dense.weights (Dense.setWeights d newWeights)) [] = src)
    by (apply nth_lookup_Some with (d := []) in Hrow; exact Hrow).
  split; [exact Hrow|].
  unfold Dense.getWeight, Dense.getBias.
  change (Dense.in_size (Dense.setWeights d newWeights)) with (Dense.in_size d).
  rewrite Hnth.
  split; [reflexivity|]. split; [reflexivity|].
  intros Hl. apply lookup_ge_None_2. lia.
Qed.

End Dense2Setters.

Section Dense2Memcpy.
Context {T : Type} `{Scalar T} `{ObjRepLaws T} `{!ObjRepValueLaws T}.
Import DenseRanges2.

(** X20.  The pointer overload of [Dense::setWeights], in the revision
    that keeps the bias inside each row, leaves the bias alone: the
    [in_size] bytes it copies into a row end before the element at index
    [in_size]. *)
Theorem Dense2_setWeights_ptr_keeps_bias
    (d : Dense.t T) (newWeights : list (list T)) (i : nat) (row src : list T) :
  Dense.weights d !! i = Some row ->
  newWeights !! i = Some src ->
  Dense.in_size d <= length src ->
  Dense.in_size d < length row ->
  Dense.getBias (Dense.setWeights_ptr d newWeights) i = Dense.getBias d i.
Proof.
  intros Hrow Hsrc Hlen Hbias. pose proof sizeofT_pos as Hsz.
  unfold Dense.getBias, Dense.setWeights_ptr. cbn [Dense.weights Dense.in_size].
  rewrite (nth_lookup_Some (Dense.weights d) i [] row Hrow).
  destruct (lookup_lt_is_Some_2 row (Dense.in_size d) Hbias) as [x Hx].
  rewrite (nth_lookup_Some row _ szero x Hx).
  destruct (i <? Dense.out_size d) eqn:Hi.
  - rewrite (nth_lookup_Some _ i [] (memcpy row src (Dense.in_size d))).
    + apply nth_lookup_Some. apply memcpy_lookup_untouched; try assumption.
      * rewrite encode_all_length. nia.
      * nia.
    + rewrite list_lookup_imap, Hrow. simpl. rewrite Hi.
      now rewrite (nth_lookup_Some newWeights i [] src Hsrc).
  - rewrite (nth_lookup_Some _ i [] row).
    + now apply nth_lookup_Some.
    + rewrite list_lookup_imap, Hrow. simpl. now rewrite Hi.
Qed.

(** X21.  The constant [1] appended to [inVec] (index [in_size]) is
    there after construction, and [forward] keeps it, together with the
    length of [inVec]: the [in_size] bytes it copies end before that
    element. *)
Theorem Dense2_inVec_invariant :
  (forall in_size out_size : nat,
     length (Dense.inVec (Dense.ctor in_size out_size : Dense.t T)) = in_size + 1 /\
     Dense.inVec (Dense.ctor in_size out_size : Dense.t T) !! in_size = Some sone) /\
  (forall (d : Dense.t T) (input output : list T),
     Dense.in_size d <= length input ->
     Dense.inVec d !! Dense.in_size d = Some sone ->
     let d' := fst (Dense.forward d input output) in
     Dense.in_size d' = Dense.in_size d /\
     length (Dense.inVec d') = length (Dense.inVec d) /\
     Dense.inVec d' !! Dense.in_size d' = Some sone).
Proof.
  pose proof sizeofT_pos as Hsz. split.
  - intros in_size out_size. cbn [Dense.inVec Dense.ctor]. split.
    + rewrite length_insert. apply repeat_length.
    + apply list_lookup_insert_eq. rewrite repeat_length. lia.
  - intros d input output Hin Hone d'. unfold d', Dense.forward.
    cbn [fst Dense.in_size Dense.inVec].
    split; [reflexivity|]. split; [apply memcpy_length|].
    apply memcpy_lookup_untouched; try assumption.
    + rewrite encode_all_length. nia.
    + nia.
Qed.

End Dense2Memcpy.

Section Dense2OneByte.
Context {T : Type} `{ScalarLaws T} `{ObjRepLaws T} `{!ObjRepValueLaws T}.
Import DenseRanges2.

Lemma sadd_0_l (a : T) : sadd szero a = a.
Proof. rewrite sadd_comm. apply sadd_0_r. Qed.

Lemma dot_snoc (w x : list T) (b c : T) :
  length w = length x ->
  dot (w ++ [b]) (x ++ [c]) = sadd (dot w x) (smul b c).
Proof.
  revert x. unfold dot.
  induction w as [|a w IH]; intros [|y x] Hlen; simpl in *; try discriminate.
  - now rewrite sadd_0_r, sadd_0_l.
  - rewrite IH by lia. apply sadd_assoc.
Qed.

(** X22.  For a scalar type of one byte with exact arithmetic,
    [Dense::forward] of the revision that keeps the bias inside each row
    computes the affine map: with row [j] holding the weights [w] and
    then the bias, the output of unit [j] is
    [bias + sum_i w[i] * input[i]]. *)
Theorem Dense2_forward_one_byte (d : Dense.t T) (input output : list T)
    (j : nat) (w : list T) (bias : T) :
  sizeofT = 1 ->
  length (Dense.inVec d) = Dense.in_size d + 1 ->
  Dense.inVec d !! Dense.in_size d = Some sone ->
  Dense.in_size d <= length input ->
  Dense.weights d !! j = Some (w ++ [bias]) ->
  length w = Dense.in_size d ->
  nth j (snd (Dense.forward d input output)) szero
  = sadd bias (dot w (firstn (Dense.in_size d) input)).
Proof.
  intros Hone Hlen Hlast Hin Hrow Hw.
  unfold Dense.forward. cbn [snd].
  assert (HinVec : memcpy (Dense.inVec d) input (Dense.in_size d)
                   = firstn (Dense.in_size d) input ++ [sone]).
  { assert (E : memcpy (Dense.inVec d) input (Dense.in_size d)
                = memcpy (Dense.inVec d) input (Dense.in_size d * sizeofT))
      by (now rewrite Hone, Nat.mul_1_r).
    rewrite E, memcpy_elements by lia.
    now rewrite (skipn_appended (Dense.in_size d) _ sone Hlen Hlast). }
  rewrite HinVec.
  set (f := fun w0 : list T =>
              fold_row w0 (firstn (Dense.in_size d) input ++ [sone]) szero).
  assert (Hj : j < length (map f (Dense.weights d)))
    by (rewrite length_map; now apply lookup_lt_Some in Hrow).
  rewrite write_front_nth by exact Hj.
  rewrite (nth_indep _ szero (f [])) by exact Hj.
  rewrite map_nth, (nth_lookup_Some _ j [] _ Hrow). unfold f.
  rewrite fold_row_dot, dot_snoc by (rewrite length_take; lia).
  rewrite smul_1_r, sadd_0_l. apply sadd_comm.
Qed.

End Dense2OneByte.

Lemma UInt8_scalar_laws : @ScalarLaws byte UInt8.scalar.
Proof.
  split; intros; cbn [sadd smul szero sone UInt8.scalar].
  - now rewrite Z.add_comm.
  - apply byte.unsigned_inj. rewrite !byte.unsigned_of_Z. unfold byte.wrap.
    now rewrite Zplus_mod_idemp_r, Zplus_mod_idemp_l, Z.add_assoc.
  - change (byte.unsigned Byte.x00) with 0%Z.
    rewrite Z.add_0_r. apply byte.of_Z_unsigned.
  - change (byte.unsigned Byte.x01) with 1%Z.
    rewrite Z.mul_1_r. apply byte.of_Z_unsigned.
Qed.

(** ** DenseT: rows of the two-dimensional array *)

Section DenseTRows.
Context {T : Type} `{Scalar T} `{ObjRep T}.
Variables in_sizet out_sizet : nat.
Import DenseRanges.

Lemma DenseT_row_lookup (w : list T) (i k : nat) :
  k < in_sizet -> DenseT.row in_sizet w i !! k = w !! (i * in_sizet + k).
Proof.
  intros Hk. unfold DenseT.row, DenseT.in_size.
  now rewrite lookup_take_lt, lookup_drop.
Qed.

Lemma DenseT_row_lookup_ge (w : list T) (i k : nat) :
  in_sizet <= k -> DenseT.row in_sizet w i !! k = None.
Proof.
  intros Hk. unfold DenseT.row, DenseT.in_size. now apply lookup_take_ge.
Qed.

Lemma DenseT_set_row_lookup_in (w r : list T) (i k : nat) :
  length r = in_sizet -> i * in_sizet <= length w -> k < in_sizet ->
  DenseT.set_row in_sizet w i r !! (i * in_sizet + k) = r !! k.
Proof.
  intros Hr Hw Hk. unfold DenseT.set_row, DenseT.in_size.
  rewrite lookup_app_r by (rewrite length_take; lia).
  rewrite length_take, Nat.min_l by lia.
  rewrite lookup_app_l by lia. f_equal. lia.
Qed.

Lemma DenseT_set_row_lookup_out (w r : list T) (i p : nat) :
  length r = in_sizet -> i * in_sizet + in_sizet <= length w ->
  p < i * in_sizet \/ i * in_sizet + in_sizet <= p ->
  DenseT.set_row in_sizet w i r !! p = w !! p.
Proof.
  intros Hr Hw [Hp|Hp]; unfold DenseT.set_row, DenseT.in_size.
  - rewrite lookup_app_l by (rewrite length_take; lia).
    now apply lookup_take_lt.
  - rewrite lookup_app_r by (rewrite length_take; lia).
    rewrite length_take, Nat.min_l by lia.
    rewrite lookup_app_r by lia. rewrite lookup_drop. f_equal. lia.
Qed.

Lemma DenseT_set_row_length (w r : list T) (i : nat) :
  length r = in_sizet -> i * in_sizet + in_sizet <= length w ->
  length (DenseT.set_row in_sizet w i r) = length w.
Proof.
  intros Hr Hw. unfold DenseT.set_row, DenseT.in_size.
  rewrite !length_app, length_take, length_skipn. lia.
Qed.

Lemma DenseT_row_set_row_eq (w r : list T) (i : nat) :
  length r = in_sizet -> i * in_sizet + in_sizet <= length w ->
  DenseT.row in_sizet (DenseT.set_row in_sizet w i r) i = r.
Proof.
  intros Hr Hw. apply list_eq. intros k.
  destruct (decide (k < in_sizet)) as [Hk|Hk].
  - rewrite DenseT_row_lookup by assumption.
    apply DenseT_set_row_lookup_in; lia.
  - rewrite DenseT_row_lookup_ge by lia. symmetry.
    apply lookup_ge_None_2. lia.
Qed.

Lemma DenseT_row_set_row_ne (w r : list T) (i j : nat) :
  length r = in_sizet -> i * in_sizet + in_sizet <= length w -> j <> i ->
  DenseT.row in_sizet (DenseT.set_row in_sizet w i r) j = DenseT.row in_sizet w j.
Proof.
  intros Hr Hw Hne. apply list_eq. intros k.
  destruct (decide (k < in_sizet)) as [Hk|Hk].
  - rewrite !DenseT_row_lookup by assumption.
    apply DenseT_set_row_lookup_out; try assumption. nia.
  - now rewrite !DenseT_row_lookup_ge by lia.
Qed.

Lemma DenseT_row_length (w : list T) (i : nat) :
  i * in_sizet + in_sizet <= length w ->
  length (DenseT.row in_sizet w i) = in_sizet.
Proof.
  intros Hw. unfold DenseT.row, DenseT.in_size.
  rewrite length_take, length_skipn. lia.
Qed.

(** A loop [for i < n: weights[i] = g(i, weights[i])] over the rows. *)
Lemma DenseT_rows_loop (g : nat -> list T -> list T) (n : nat) (w : list T) :
  (forall i r, length r = in_sizet -> length (g i r) = in_sizet) ->
  n * in_sizet <= length w ->
  let w' := fold_left (fun w i => DenseT.set_row in_sizet w i
                                    (g i (DenseT.row in_sizet w i)))
                      (seq 0 n) w in
  length w' = length w /\
  (forall i, i < n -> DenseT.row in_sizet w' i = g i (DenseT.row in_sizet w i)) /\
  (forall i, n <= i -> DenseT.row in_sizet w' i = DenseT.row in_sizet w i).
Proof.
  intros Hg. induction n as [|n IH]; intros Hw; [now simpl|].
  rewrite seq_S, fold_left_app. simpl.
  destruct IH as (Hlen & Hlt & Hge); [lia|].
  set (w1 := fold_left _ (seq 0 n) w) in *.
  assert (Hw1 : n * in_sizet + in_sizet <= length w1) by (rewrite Hlen; lia).
  assert (Hr : length (g n (DenseT.row in_sizet w1 n)) = in_sizet)
    by (apply Hg; now apply DenseT_row_length).
  split; [|split].
  - rewrite DenseT_set_row_length by assumption. exact Hlen.
  - intros i Hi. destruct (decide (i = n)) as [->|Hne].
    + rewrite DenseT_row_set_row_eq by assumption. now rewrite Hge by lia.
    + rewrite DenseT_row_set_row_ne by assumption. apply Hlt. lia.
  - intros i Hi. rewrite DenseT_row_set_row_ne by (assumption || lia).
    apply Hge. lia.
Qed.

End DenseTRows.

(** ** DenseT: constructor and setters *)

Section DenseTMemory.
Context {T : Type} `{Scalar T} `{ObjRepLaws T} `{!ObjRepValueLaws T}.
Variables in_sizet out_sizet : nat.
Import DenseRanges.

Lemma memset0_length (dst : list T) (n : nat) :
  length (memset0 dst n) = length dst.
Proof. apply decode_all_length. Qed.

(** An element that lies behind the zeroed bytes keeps its value. *)
Lemma memset0_lookup_untouched (dst : list T) (n i : nat) (x : T) :
  n <= length (encode_all dst) -> n <= i * sizeofT ->
  dst !! i = Some x -> memset0 dst n !! i = Some x.
Proof.
  intros Hlen Hn Hx. unfold memset0.
  rewrite decode_all_lookup by (now apply lookup_lt_Some in Hx).
  f_equal. rewrite <- (of_to_bytes x). f_equal.
  rewrite <- (encode_all_chunk dst i x Hx).
  rewrite skipn_app, length_take, repeat_length, Nat.min_l by assumption.
  rewrite skipn_all2 by (rewrite length_take, repeat_length; lia).
  rewrite skipn_skipn. simpl.
  now replace (i * sizeofT - n + n) with (i * sizeofT) by lia.
Qed.

(** X23.  [DenseT()] passes element counts to [memset] as byte counts:
    a weight [weights[i][k]] whose bytes lie behind the first [in_size]
    bytes of its row, and a bias [bias[i]] whose bytes lie behind the
    first [out_size] bytes, are not initialised; they hold what the
    storage held. *)
Theorem DenseT_ctor_uninitialised (mem : DenseT.t T) (i k : nat) :
  length (DenseT.weights mem) = out_sizet * in_sizet ->
  length (DenseT.bias mem) = out_sizet ->
  i < out_sizet -> k < in_sizet ->
  (in_sizet <= k * sizeofT ->
   nth k (DenseT.row in_sizet
            (DenseT.weights (DenseT.ctor in_sizet out_sizet mem)) i) szero
   = nth k (DenseT.row in_sizet (DenseT.weights mem) i) szero) /\
  (out_sizet <= i * sizeofT ->
   nth i (DenseT.bias (DenseT.ctor in_sizet out_sizet mem)) szero
   = nth i (DenseT.bias mem) szero).
Proof.
  intros Hw Hb Hi Hk. pose proof sizeofT_pos as Hsz.
  unfold DenseT.ctor, DenseT.out_size, DenseT.in_size.
  cbn [DenseT.weights DenseT.bias]. split.
  - intros Hn.
    destruct (DenseT_rows_loop in_sizet (fun _ r => memset0 r in_sizet)
                out_sizet (DenseT.weights mem)) as (_ & Hrows & _).
    + intros. now rewrite memset0_length.
    + lia.
    + cbv zeta in Hrows. rewrite (Hrows i Hi).
      assert (Hlen : length (DenseT.row in_sizet (DenseT.weights mem) i) = in_sizet)
        by (apply DenseT_row_length; nia).
      destruct (lookup_lt_is_Some_2 (DenseT.row in_sizet (DenseT.weights mem) i) k
                  ltac:(lia)) as [x Hx].
      rewrite (nth_lookup_Some _ k szero x Hx).
      apply nth_lookup_Some. apply memset0_lookup_untouched; try assumption.
      rewrite encode_all_length. nia.
  - intros Hn.
    destruct (lookup_lt_is_Some_2 (DenseT.bias mem) i ltac:(lia)) as [x Hx].
    rewrite (nth_lookup_Some _ i szero x Hx).
    apply nth_lookup_Some. apply memset0_lookup_untouched; try assumption.
    rewrite encode_all_length. nia.
Qed.

(** X24.  [DenseT::setWeights] (both overloads) passes [in_size] to
    [memcpy] as the number of BYTES per row.  In row [i < out_size], a
    weight whose bytes all lie within the first [in_size] bytes is
    replaced by [newWeights[i][k]], a weight whose bytes all lie behind
    them keeps its old value, and the row is stored completely exactly
    when [T] has one byte. *)
Theorem DenseT_setWeights_elements (d : DenseT.t T) (newWeights : list (list T))
    (i k : nat) (src : list T) :
  length (DenseT.weights d) = out_sizet * in_sizet ->
  newWeights !! i = Some src ->
  in_sizet <= length src ->
  i < out_sizet -> k < in_sizet ->
  let row' := DenseT.row in_sizet
                (DenseT.weights (DenseT.setWeights in_sizet out_sizet d newWeights)) i in
  ((k + 1) * sizeofT <= in_sizet -> nth k row' szero = nth k src szero) /\
  (in_sizet <= k * sizeofT ->
   nth k row' szero = nth k (DenseT.row in_sizet (DenseT.weights d) i) szero) /\
  (sizeofT = 1 -> nth k row' szero = nth k src szero).
Proof.
  intros Hw Hsrc Hlen Hi Hk row'. pose proof sizeofT_pos as Hsz.
  assert (Hrow : row' = memcpy (DenseT.row in_sizet (DenseT.weights d) i) src in_sizet).
  { unfold row', DenseT.setWeights, DenseT.out_size, DenseT.in_size.
    cbn [DenseT.weights].
    destruct (DenseT_rows_loop in_sizet
                (fun i r => memcpy r (nth i newWeights []) in_sizet)
                out_sizet (DenseT.weights d)) as (_ & Hrows & _).
    - intros. now rewrite memcpy_length.
    - lia.
    - cbv zeta in Hrows. rewrite (Hrows i Hi).
      now rewrite (nth_lookup_Some newWeights i [] src Hsrc). }
  rewrite Hrow.
  assert (Hold : length (DenseT.row in_sizet (DenseT.weights d) i) = in_sizet)
    by (apply DenseT_row_length; nia).
  assert (Hcopied : (k + 1) * sizeofT <= in_sizet ->
            nth k (memcpy (DenseT.row in_sizet (DenseT.weights d) i) src in_sizet) szero
            = nth k src szero).
  { intros Hn.
    destruct (lookup_lt_is_Some_2 src k ltac:(nia)) as [x Hx].
    rewrite (nth_lookup_Some src k szero x Hx).
    apply nth_lookup_Some. apply memcpy_lookup_copied; try assumption. lia. }
  split; [exact Hcopied|]. split.
  - intros Hn.
    destruct (lookup_lt_is_Some_2 (DenseT.row in_sizet (DenseT.weights d) i) k
                ltac:(lia)) as [x Hx].
    rewrite (nth_lookup_Some _ k szero x Hx).
    apply nth_lookup_Some. apply memcpy_lookup_untouched; try assumption.
    rewrite encode_all_length. nia.
  - intros Hone. apply Hcopied. rewrite Hone. lia.
Qed.

(** X25.  [DenseT::setBias] passes [out_size] to [memcpy] as the
    number of BYTES: a bias value whose bytes all lie within the first
    [out_size] bytes is replaced, one whose bytes all lie behind them
    keeps its old value, and all values are stored exactly when [T] has
    one byte. *)
Theorem DenseT_setBias_elements (d : DenseT.t T) (b : list T) (i : nat) :
  length (DenseT.bias d) = out_sizet ->
  out_sizet <= length b ->
  i < out_sizet ->
  let bias' := DenseT.bias (DenseT.setBias out_sizet d b) in
  ((i + 1) * sizeofT <= out_sizet -> nth i bias' szero = nth i b szero) /\
  (out_sizet <= i * sizeofT -> nth i bias' szero = nth i (DenseT.bias d) szero) /\
  (sizeofT = 1 -> nth i bias' szero = nth i b szero).
Proof.
  intros Hbias Hb Hi bias'. pose proof sizeofT_pos as Hsz.
  unfold bias', DenseT.setBias, DenseT.out_size. cbn [DenseT.bias].
  assert (Hcopied : (i + 1) * sizeofT <= out_sizet ->
            nth i (memcpy (DenseT.bias d) b out_sizet) szero = nth i b szero).
  { intros Hn.
    destruct (lookup_lt_is_Some_2 b i ltac:(nia)) as [x Hx].
    rewrite (nth_lookup_Some b i szero x Hx).
    apply nth_lookup_Some. apply memcpy_lookup_copied; try assumption. lia. }
  split; [exact Hcopied|]. split.
  - intros Hn.
    destruct (lookup_lt_is_Some_2 (DenseT.bias d) i ltac:(lia)) as [x Hx].
    rewrite (nth_lookup_Some _ i szero x Hx).
    apply nth_lookup_Some. apply memcpy_lookup_untouched; try assumption.
    rewrite encode_all_length. nia.
  - intros Hone. apply Hcopied. rewrite Hone. lia.
Qed.

End DenseTMemory.

(** ** Dense and DenseT, configured alike, for a scalar type of one byte *)

Section DenseConfigured.
Context {T : Type} `{Scalar T} `{ObjRepLaws T} `{!ObjRepValueLaws T}.
Variables in_sizet out_sizet : nat.
Import DenseRanges.

(** With one byte per element a byte count is an element count. *)
Lemma memcpy_one_byte (dst src : list T) (n : nat) :
  sizeofT = 1 -> n <= length src -> n <= length dst ->
  memcpy dst src n = firstn n src ++ skipn n dst.
Proof.
  intros Hone Hs Hd. pose proof (memcpy_elements dst src n Hs Hd) as E.
  rewrite Hone, Nat.mul_1_r in E. exact E.
Qed.

Lemma memcpy_one_byte_all (dst src : list T) :
  sizeofT = 1 -> length dst = length src ->
  memcpy dst src (length src) = src.
Proof.
  intros Hone Hlen. rewrite memcpy_one_byte by (assumption || lia).
  now rewrite firstn_all, skipn_all2, app_nil_r by lia.
Qed.

(** The rows of the static layer after [DenseT()] and [setWeights]. *)
Lemma DenseT_configured_rows (mem : DenseT.t T) (W : list (list T)) :
  sizeofT = 1 ->
  length W = out_sizet -> Forall (fun r => length r = in_sizet) W ->
  length (DenseT.weights mem) = out_sizet * in_sizet ->
  DenseT.rows in_sizet out_sizet
    (DenseT.weights
       (DenseT.setWeights in_sizet out_sizet
          (DenseT.ctor in_sizet out_sizet mem) W)) = W.
Proof.
  intros Hone HW Hrows Hw.
  unfold DenseT.setWeights, DenseT.ctor, DenseT.rows,
         DenseT.out_size, DenseT.in_size.
  cbn [DenseT.weights].
  destruct (DenseT_rows_loop in_sizet (fun _ r => memset0 r in_sizet)
              out_sizet (DenseT.weights mem)) as (Hlen0 & _ & _).
  { intros. now rewrite memset0_length. }
  { lia. }
  cbv zeta in Hlen0.
  set (w0 := fold_left _ (seq 0 out_sizet) (DenseT.weights mem)) in *.
  destruct (DenseT_rows_loop in_sizet
              (fun i r => memcpy r (nth i W []) in_sizet)
              out_sizet w0) as (_ & Hset & _).
  { intros. now rewrite memcpy_length. }
  { lia. }
  cbv zeta in Hset.
  apply list_eq. intros i. rewrite list_lookup_fmap.
  destruct (decide (i < out_sizet)) as [Hi|Hi].
  - rewrite lookup_seq_lt by assumption. cbn [fmap option_fmap option_map Nat.add].
    rewrite (Hset i Hi).
    destruct (lookup_lt_is_Some_2 W i ltac:(lia)) as [src Hsrc].
    rewrite Hsrc, (nth_lookup_Some W i [] src Hsrc). f_equal.
    assert (Lsrc : length src = in_sizet).
    { apply (proj1 (Forall_lookup _ _) Hrows i src Hsrc). }
    rewrite <- Lsrc at 2. apply memcpy_one_byte_all; [assumption|].
    rewrite Lsrc. apply DenseT_row_length. nia.
  - rewrite lookup_seq_ge by lia. symmetry. apply lookup_ge_None_2. lia.
Qed.

(** X27.  For a scalar type of one byte the byte counts of the setters
    are element counts: the runtime-sized and the compile-time-sized
    layer of dense_ranges.h, each constructed and then configured with
    the same [out_size x in_size] weights and the same [out_size] biases,
    hold these weights and biases and write the same outputs for every
    input, whatever the storage of the static layer held before. *)
Theorem Dense_DenseT_configured_one_byte
    (W : list (list T)) (b x : list T) (mem : DenseT.t T) :
  sizeofT = 1 ->
  length W = out_sizet -> Forall (fun r => length r = in_sizet) W ->
  length b = out_sizet ->
  length (DenseT.weights mem) = out_sizet * in_sizet ->
  length (DenseT.bias mem) = out_sizet ->
  let dyn := Dense.setBias (Dense.setWeights (Dense.ctor in_sizet out_sizet) W) b in
  let sta := DenseT.setBias out_sizet
               (DenseT.setWeights in_sizet out_sizet
                  (DenseT.ctor in_sizet out_sizet mem) W) b in
  (Dense.weights dyn = W /\ Dense.bias dyn = b) /\
  (DenseT.rows in_sizet out_sizet (DenseT.weights sta) = W /\
   DenseT.bias sta = b) /\
  Dense.forward dyn x (DenseT.outs mem)
  = DenseT.outs (DenseT.forward in_sizet out_sizet sta x).
Proof.
  intros Hone HW Hrows Hb Hw Hbm dyn sta.
  assert (Hdb : Dense.bias dyn = b).
  { unfold dyn, Dense.setBias, Dense.setWeights, Dense.ctor.
    cbn [Dense.bias Dense.out_size].
    rewrite <- Hb. apply memcpy_one_byte_all; [assumption|].
    now rewrite repeat_length. }
  assert (Hsw : DenseT.rows in_sizet out_sizet (DenseT.weights sta) = W)
    by (now apply DenseT_configured_rows).
  assert (Hsb : DenseT.bias sta = b).
  { unfold sta, DenseT.setBias, DenseT.setWeights, DenseT.ctor, DenseT.out_size.
    cbn [DenseT.bias].
    rewrite <- Hb. apply memcpy_one_byte_all; [assumption|].
    rewrite memset0_length. lia. }
  split; [split; [reflexivity | exact Hdb]|].
  split; [split; [exact Hsw | exact Hsb]|].
  unfold Dense.forward, DenseT.forward. cbn [DenseT.outs].
  rewrite Hsw, Hsb, Hdb.
  unfold DenseT.in_size, DenseT.out_size.
  rewrite <- Hb, firstn_all.
  reflexivity.
Qed.

End DenseConfigured.

(* ===================================================================== *)
(** ** The statements on the example layers *)
(* ===================================================================== *)

Import UInt8 UInt16le.

Lemma GRULayer_setWVals_stored_witness :
  mat_get (GRULayer.wCombinedWeights
             (GRULayer.setWVals MoreExamples.gru MoreExamples.wVals)) 2 1
  = mat_get MoreExamples.wVals 1 2.
Proof.
  apply GRULayer_setWVals_stored.
  - split; [apply (ZeroM_shape 3 3) | apply (ZeroM_shape 3 2)].
  - simpl; lia.
  - simpl; lia.
Defined.

Lemma GRULayer_setUVals_stored_witness :
  mat_get (GRULayer.uCombinedWeights
             (GRULayer.setUVals MoreExamples.gru MoreExamples.uVals)) 2 0
  = mat_get MoreExamples.uVals 0 2.
Proof.
  apply GRULayer_setUVals_stored.
  - split; [apply (ZeroM_shape 3 3) | apply (ZeroM_shape 3 2)].
  - simpl; lia.
  - simpl; lia.
Defined.

Lemma GRULayer_setters_frame_witness :
  mat_get (GRULayer.wCombinedWeights
             (GRULayer.setBVals MoreExamples.gru MoreExamples.bVals)) 2 1
  = mat_get (GRULayer.wCombinedWeights MoreExamples.gru) 2 1.
Proof.
  refine (proj1 (proj1 (proj2 (proj2
            (GRULayer_setters_frame MoreExamples.gru MoreExamples.bVals))))
            2 1 _).
  simpl; lia.
Defined.

Lemma GRULayer_shape_invariant_witness :
  GRULayer_shape (GRULayer.setBVals MoreExamples.gru MoreExamples.bVals).
Proof.
  apply (proj2 (proj2 (@GRULayer_shape_invariant float _))).
  apply (proj1 (@GRULayer_shape_invariant float _)).
Defined.

Lemma GRULayer_load_stored_witness :
  let l' := GRULayer.setBVals
              (GRULayer.setUVals
                 (GRULayer.setWVals MoreExamples.gru MoreExamples.wVals)
                 MoreExamples.uVals) MoreExamples.bVals in
  mat_get (GRULayer.wCombinedWeights l') 2 1 = mat_get MoreExamples.wVals 1 2 /\
  mat_get (GRULayer.wCombinedWeights l') 2 2 = mat_get MoreExamples.bVals 0 2 /\
  mat_get (GRULayer.uCombinedWeights l') 2 0 = mat_get MoreExamples.uVals 0 2 /\
  mat_get (GRULayer.uCombinedWeights l') 2 1 = mat_get MoreExamples.bVals 1 2.
Proof.
  destruct (GRULayer_load_stored MoreExamples.gru MoreExamples.wVals
              MoreExamples.uVals MoreExamples.bVals 2)
    as (HW & HbW & HU & HbU).
  - split; [apply (ZeroM_shape 3 3) | apply (ZeroM_shape 3 2)].
  - simpl; lia.
  - split; [apply (HW 1); simpl; lia|].
    split; [exact HbW|].
    split; [apply (HU 0); simpl; lia | exact HbU].
Defined.

Lemma GRULayerT_setWVals_setUVals_get_witness :
  mat_get (GRULayerT.wCombinedWeights
             (GRULayerT.setWVals 2 1 MoreExamples.gruT MoreExamples.wVals)) 2 1
  = mat_get MoreExamples.wVals 1 2.
Proof.
  refine (proj1 (GRULayerT_setWVals_setUVals_get 2 1 MoreExamples.gruT
                   MoreExamples.wVals 2 _ _) 1 _).
  - split; [apply (ZeroM_shape 3 3) | apply (ZeroM_shape 3 2)].
  - lia.
  - lia.
Defined.

Lemma GRULayerT_setBVals_rows_written_witness :
  mat_get (GRULayerT.wCombinedWeights
             (GRULayerT.setBVals 2 1 MoreExamples.gruT MoreExamples.bVals)) 0 2
  = mat_get MoreExamples.bVals 0 0.
Proof.
  refine (proj1 (GRULayerT_setBVals_rows_written 2 1 MoreExamples.gruT
                   MoreExamples.bVals 0 _ _)).
  - split; [apply (ZeroM_shape 3 3) | apply (ZeroM_shape 3 2)].
  - lia.
Defined.

Lemma GRULayerT_shape_invariant_witness :
  GRULayerT_shape 2 1
    (GRULayerT.setBVals 2 1 MoreExamples.gruT MoreExamples.bVals).
Proof.
  pose proof (@GRULayerT_shape_invariant float _ 2 1
                SampleRateCorrectionMode.NoInterp) as [Hc Hk].
  apply (Hk MoreExamples.gruT (Hc 0%Z 1%float 0%float)).
Defined.

Lemma GRULayerT_prepare_NoInterp_state_witness :
  GRULayerT.outs_delayed
    (GRULayerT.prepare_NoInterp 1 SampleRateCorrectionMode.NoInterp
       GRUExamples.streaming 3)
  = repeat (Zero 1) 3.
Proof.
  refine (proj1 (proj2 (GRULayerT_prepare_NoInterp_state 1
                          GRUExamples.streaming 3 5 _ _))); lia.
Defined.


Lemma GRULayerT_prepare_LinInterp_weights_witness :
  GRULayerT.delayWriteIdx
    (GRULayerT.prepare_LinInterp 1 SampleRateCorrectionMode.LinInterp
       (GRUExamples.fresh_rat SampleRateCorrectionMode.LinInterp) (5 # 2)%Q)
  = Qfloor (5 # 2).
Proof.
  refine (proj1 (proj2 (proj2 (proj2 (proj2 (proj2
            (GRULayerT_prepare_LinInterp_weights 1
               (GRUExamples.fresh_rat SampleRateCorrectionMode.LinInterp)
               (5 # 2)%Q _ _))))))).
  - vm_compute; discriminate.
  - reflexivity.
Defined.

Lemma Dense_forward_frame_witness :
  @DenseRanges.Dense.forward Z Int.scalar DenseExamples.c [3; 4]%Z [0; 7]%Z
  = @DenseRanges.Dense.forward Z Int.scalar DenseExamples.c [3; 4; 99]%Z [0; 7]%Z.
Proof.
  refine (proj1 (@Dense_forward_frame Z Int.scalar DenseExamples.c
                   [3; 4]%Z [3; 4; 99]%Z [0; 7]%Z _ _)).
  - simpl; lia.
  - reflexivity.
Defined.

Lemma Dense_setBias_elements_witness :
  DenseRanges.Dense.getBias
    (DenseRanges.Dense.setBias MoreExamples.dense16
       [MoreExamples.w1; MoreExamples.w2; MoreExamples.w3; MoreExamples.w4]) 1
  = MoreExamples.w2 /\
  DenseRanges.Dense.getBias
    (DenseRanges.Dense.setBias MoreExamples.dense16
       [MoreExamples.w1; MoreExamples.w2; MoreExamples.w3; MoreExamples.w4]) 3
  = DenseRanges.Dense.getBias MoreExamples.dense16 3.
Proof.
  split.
  - refine (proj1 (@Dense_setBias_elements _ UInt16le.scalar UInt16le.objrep
                     UInt16le_objrep_laws UInt16le_value_laws
                     MoreExamples.dense16 _ 1 _ _) _);
      simpl; lia.
  - refine (proj1 (proj2 (@Dense_setBias_elements _ UInt16le.scalar UInt16le.objrep
                     UInt16le_objrep_laws UInt16le_value_laws
                     MoreExamples.dense16 _ 3 _ _)) _);
      simpl; lia.
Defined.

Lemma Dense_setWeights_ptr_elements_witness :
  DenseRanges.Dense.getWeight
    (DenseRanges.Dense.setWeights_ptr MoreExamples.dense8 [[Byte.x05; Byte.x06]]) 0 1
  = Byte.x06.
Proof.
  refine (proj2 (proj2 (@Dense_setWeights_ptr_elements _ UInt8.scalar UInt8.objrep
                     UInt8_objrep_laws UInt8_value_laws
                     MoreExamples.dense8 [[Byte.x05; Byte.x06]] 0 1
                     [Byte.x00; Byte.x00] [Byte.x05; Byte.x06] _ _ _ _ _)) _ _);
    try reflexivity; simpl; lia.
Defined.

Lemma Dense2_setWeights_rows_witness :
  DenseRanges2.Dense.getBias
    (DenseRanges2.Dense.setWeights MoreExamples.dense2 [[1; 2; 0.25]]%float) 0
  = 0.25%float /\
  nth 0 (DenseRanges2.Dense.weights
           (DenseRanges2.Dense.setWeights MoreExamples.dense2 [[1; 2]]%float)) []
    !! 2 = None.
Proof.
  split.
  - refine (proj1 (proj2 (proj2 (proj2 (proj2 (Dense2_setWeights_rows
              MoreExamples.dense2 [[1; 2; 0.25]]%float _)) _ 0
              [1; 2; 0.25]%float _))) _); try reflexivity; simpl; lia.
  - refine (proj2 (proj2 (proj2 (proj2 (proj2 (Dense2_setWeights_rows
              MoreExamples.dense2 [[1; 2]]%float _)) _ 0
              [1; 2]%float _))) _); try reflexivity; simpl; lia.
Defined.

Lemma Dense2_setWeights_ptr_keeps_bias_witness :
  DenseRanges2.Dense.getBias
    (DenseRanges2.Dense.setWeights_ptr MoreExamples.dense2_16
       [[MoreExamples.w3; MoreExamples.w4]]) 0
  = DenseRanges2.Dense.getBias MoreExamples.dense2_16 0.
Proof.
  refine (@Dense2_setWeights_ptr_keeps_bias _ UInt16le.scalar UInt16le.objrep
            UInt16le_objrep_laws UInt16le_value_laws
            MoreExamples.dense2_16 [[MoreExamples.w3; MoreExamples.w4]] 0
            [MoreExamples.w1; MoreExamples.w2; MoreExamples.w5]
            [MoreExamples.w3; MoreExamples.w4] _ _ _ _);
    try reflexivity; simpl; lia.
Defined.

Lemma Dense2_inVec_invariant_witness :
  DenseRanges2.Dense.inVec
    (fst (DenseRanges2.Dense.forward MoreExamples.dense2_16
            [MoreExamples.w3; MoreExamples.w4] [MoreExamples.w1])) !! 2
  = Some (sone (T := byte * byte)).
Proof.
  refine (proj2 (proj2 (proj2 (@Dense2_inVec_invariant _ UInt16le.scalar
            UInt16le.objrep UInt16le_objrep_laws UInt16le_value_laws)
            MoreExamples.dense2_16 [MoreExamples.w3; MoreExamples.w4]
            [MoreExamples.w1] _ _))).
  - simpl; lia.
  - reflexivity.
Defined.

Lemma Dense2_forward_one_byte_witness :
  nth 0 (snd (DenseRanges2.Dense.forward MoreExamples.dense2_8
                [Byte.x03; Byte.x04] [Byte.x00])) Byte.x00
  = Byte.x10.
Proof.
  refine (@Dense2_forward_one_byte _ UInt8.scalar UInt8_scalar_laws UInt8.objrep
            UInt8_objrep_laws UInt8_value_laws
            MoreExamples.dense2_8 [Byte.x03; Byte.x04] [Byte.x00] 0
            [Byte.x01; Byte.x02] Byte.x05 _ _ _ _ _ _);
    try reflexivity; simpl; lia.
Defined.

Lemma DenseT_ctor_uninitialised_witness :
  nth 1 (DenseRanges.DenseT.row 2
           (DenseRanges.DenseT.weights MoreExamples.denseT16) 1)
    (szero (T := byte * byte))
  = MoreExamples.w4 /\
  nth 1 (DenseRanges.DenseT.bias MoreExamples.denseT16) (szero (T := byte * byte))
  = MoreExamples.w4.
Proof.
  split.
  - refine (proj1 (@DenseT_ctor_uninitialised _ UInt16le.scalar UInt16le.objrep
                     UInt16le_objrep_laws UInt16le_value_laws 2 2
                     MoreExamples.denseT_mem 1 1 _ _ _ _) _);
      try reflexivity; simpl; lia.
  - refine (proj2 (@DenseT_ctor_uninitialised _ UInt16le.scalar UInt16le.objrep
                     UInt16le_objrep_laws UInt16le_value_laws 2 2
                     MoreExamples.denseT_mem 1 1 _ _ _ _) _);
      try reflexivity; simpl; lia.
Defined.

Lemma DenseT_setWeights_elements_witness :
  nth 0 (DenseRanges.DenseT.row 2
           (DenseRanges.DenseT.weights
              (DenseRanges.DenseT.setWeights 2 2 MoreExamples.denseT_mem
                 [[MoreExamples.w5; MoreExamples.w5];
                  [MoreExamples.w4; MoreExamples.w3]])) 1)
    (szero (T := byte * byte))
  = MoreExamples.w4 /\
  nth 1 (DenseRanges.DenseT.row 2
           (DenseRanges.DenseT.weights
              (DenseRanges.DenseT.setWeights 2 2 MoreExamples.denseT_mem
                 [[MoreExamples.w5; MoreExamples.w5];
                  [MoreExamples.w4; MoreExamples.w3]])) 1)
    (szero (T := byte * byte))
  = MoreExamples.w4.
Proof.
  split.
  - refine (proj1 (@DenseT_setWeights_elements _ UInt16le.scalar UInt16le.objrep
                     UInt16le_objrep_laws UInt16le_value_laws 2 2
                     MoreExamples.denseT_mem _ 1 0
                     [MoreExamples.w4; MoreExamples.w3] _ _ _ _ _) _);
      try reflexivity; simpl; lia.
  - refine (proj1 (proj2 (@DenseT_setWeights_elements _ UInt16le.scalar
                     UInt16le.objrep
                     UInt16le_objrep_laws UInt16le_value_laws 2 2
                     MoreExamples.denseT_mem _ 1 1
                     [MoreExamples.w4; MoreExamples.w3] _ _ _ _ _)) _);
      try reflexivity; simpl; lia.
Defined.

Lemma DenseT_setBias_elements_witness :
  nth 0 (DenseRanges.DenseT.bias
           (DenseRanges.DenseT.setBias 2 MoreExamples.denseT_mem
              [MoreExamples.w1; MoreExamples.w2]))
    (szero (T := byte * byte))
  = MoreExamples.w1 /\
  nth 1 (DenseRanges.DenseT.bias
           (DenseRanges.DenseT.setBias 2 MoreExamples.denseT_mem
              [MoreExamples.w1; MoreExamples.w2]))
    (szero (T := byte * byte))
  = MoreExamples.w4.
Proof.
  split.
  - refine (proj1 (@DenseT_setBias_elements _ UInt16le.scalar UInt16le.objrep
                     UInt16le_objrep_laws UInt16le_value_laws 2
                     MoreExamples.denseT_mem _ 0 _ _ _) _);
      try reflexivity; simpl; lia.
  - refine (proj1 (proj2 (@DenseT_setBias_elements _ UInt16le.scalar UInt16le.objrep
                     UInt16le_objrep_laws UInt16le_value_laws 2
                     MoreExamples.denseT_mem _ 1 _ _ _)) _);
      try reflexivity; simpl; lia.
Defined.

Lemma Dense_DenseT_configured_one_byte_witness :
  DenseRanges.Dense.forward
    (DenseRanges.Dense.setBias
       (DenseRanges.Dense.setWeights (DenseRanges.Dense.ctor 2 1)
          [[Byte.x01; Byte.x02]]) [Byte.x05])
    [Byte.x03; Byte.x04] [Byte.x00]
  = DenseRanges.DenseT.outs
      (DenseRanges.DenseT.forward 2 1
         (DenseRanges.DenseT.setBias 1
            (DenseRanges.DenseT.setWeights 2 1
               (DenseRanges.DenseT.ctor 2 1 MoreExamples.denseT8_mem)
               [[Byte.x01; Byte.x02]]) [Byte.x05])
         [Byte.x03; Byte.x04]).
Proof.
  refine (proj2 (proj2 (@Dense_DenseT_configured_one_byte _ UInt8.scalar
            UInt8.objrep UInt8_objrep_laws UInt8_value_laws 2 1
            [[Byte.x01; Byte.x02]] [Byte.x05] [Byte.x03; Byte.x04]
            MoreExamples.denseT8_mem _ _ _ _ _ _)));
    try reflexivity.
  repeat constructor.
Defined.
